(** * Quire: record mapping and query filtering over a spreadsheet grid

    A shallow embedding of [pkg/quire/table.go] (package [quire]) together
    with the functions of Go's standard library that it calls:
    [fmt.Sprintf] with the verbs [%v], [%s] and [%d], [strconv.ParseBool],
    [strconv.ParseInt], [strconv.ParseUint], [strconv.ParseFloat],
    [strings.ToLower], [strings.Contains], [sort.Sort] and the part of
    [reflect] that walks the fields of a struct.

    Go's [int] is taken to be 64 bits wide.  Strings are byte strings, as
    in Go, and [<] on strings is the byte-wise lexicographic order.
    Floating-point numbers are the IEEE 754 values of [SpecFloat].  The
    [context.Context] that every operation hands on to the client plays no
    part in what the package computes and is left out. *)

From Equations Require Import Equations.
From Stdlib Require Import ZArith List String Ascii Bool Lia.
From Stdlib Require Import DecimalString DecimalN Sorted Permutation.
From Stdlib Require Import Floats.SpecFloat.
Import ListNotations.

Local Open Scope string_scope.
Local Open Scope list_scope.
Local Open Scope Z_scope.

(** ** Go's [int] *)

Module GoInt.

Definition min_int : Z := - 2 ^ 63.
Definition max_int : Z := 2 ^ 63 - 1.

(** Two's-complement wrap-around of a mathematical integer into [bits]
    bits, signed and unsigned. *)
Definition wrap_signed (bits : Z) (z : Z) : Z :=
  (z + 2 ^ (bits - 1)) mod 2 ^ bits - 2 ^ (bits - 1).

Definition wrap_unsigned (bits : Z) (z : Z) : Z := z mod 2 ^ bits.

Definition wrap (z : Z) : Z := wrap_signed 64 z.

Definition in_range (z : Z) : Prop := min_int <= z <= max_int.

(** [a + b] and [a - b] on [int]. *)
Definition add (a b : Z) : Z := wrap (a + b).
Definition sub (a b : Z) : Z := wrap (a - b).

End GoInt.

(** [len(s)] of a slice, as an [int]. *)
Definition len {A : Type} (l : list A) : Z := Z.of_nat (List.length l).

(** [s[i]] for an index the program has already checked ([None] would be
    Go's index-out-of-range panic). *)
Definition elem_at {A : Type} (l : list A) (i : Z) : option A :=
  if i <? 0 then None else nth_error l (Z.to_nat i).

(** ** Results of functions that return an [error] or panic *)

Inductive result (A : Type) : Type :=
| Ok (a : A)            (* returned with a nil error *)
| Err (msg : string)    (* returned a non-nil error with this message *)
| Panic (msg : string). (* did not return: run-time panic *)
Arguments Ok {A} a.
Arguments Err {A} msg.
Arguments Panic {A} msg.

(** [fmt.Errorf(prefix + ": %w", err)]. *)
Definition wrap_error (prefix msg : string) : string :=
  (prefix ++ ": " ++ msg)%string.

(** ** Strings *)

Definition byte (c : ascii) : Z := Z.of_N (N_of_ascii c).

Definition is_digit (c : ascii) : bool := (48 <=? byte c) && (byte c <=? 57).

Definition digit_value (c : ascii) : Z := byte c - 48.

(** [a < b] on strings. *)
Definition string_lt (a b : string) : bool :=
  match String.compare a b with Lt => true | _ => false end.

(** [strings.ToLower] on text of the ASCII range (every byte below 128):
    the letters A to Z are mapped to a to z and every other byte is kept.
    On other text Go also lowers the capital letters of other scripts and
    replaces invalid UTF-8; bytes above 127 are kept as they are here, and
    what is stated of lower-casing is stated of ASCII text. *)
Definition lower_byte (c : ascii) : ascii :=
  if (65 <=? byte c) && (byte c <=? 90)
  then ascii_of_N (N_of_ascii c + 32) else c.

Fixpoint ToLower (s : string) : string :=
  match s with
  | EmptyString => EmptyString
  | String c rest => String (lower_byte c) (ToLower rest)
  end.

(** [strings.Contains(s, substr)]. *)
Fixpoint Contains (s substr : string) : bool :=
  String.prefix substr s ||
  match s with
  | EmptyString => false
  | String _ rest => Contains rest substr
  end.

(** ** [strconv]: integers and booleans *)

(** [%d] and [%v] of an integer: decimal, with a minus sign when negative. *)
Definition FormatInt (z : Z) : string :=
  match z with
  | Z0 => "0"
  | Zpos p => NilZero.string_of_uint (Pos.to_uint p)
  | Zneg p => String "-" (NilZero.string_of_uint (Pos.to_uint p))
  end.

(** The digits of [strconv.ParseUint(s, 10, 64)] before the range check:
    a non-empty string of decimal digits, anything else being a syntax
    error. *)
Definition parse_digits (s : string) : option Z :=
  match NilZero.uint_of_string s with
  | Some d => Some (Z.of_N (N.of_uint d))
  | None => None
  end.

(** [strconv.ParseUint(s, 10, 64)]; [None] is a non-nil error (syntax or
    range). *)
Definition ParseUint (s : string) : option Z :=
  match parse_digits s with
  | Some n => if n <=? 2 ^ 64 - 1 then Some n else None
  | None => None
  end.

(** [strconv.ParseInt(s, 10, 64)]: an optional sign, then digits; [None] is
    a non-nil error (syntax or range). *)
Definition ParseInt (s : string) : option Z :=
  match s with
  | EmptyString => None
  | String c rest =>
      let neg := Ascii.eqb c "-" in
      let digits := if Ascii.eqb c "+" || neg then rest else s in
      match parse_digits digits with
      | None => None
      | Some un =>
          if neg then (if un <=? 2 ^ 63 then Some (- un) else None)
          else (if un <=? 2 ^ 63 - 1 then Some un else None)
      end
  end.

(** [strconv.ParseBool]: exactly these twelve spellings are accepted. *)
Definition ParseBool (str : string) : option bool :=
  if existsb (String.eqb str) ["1"; "t"; "T"; "TRUE"; "true"; "True"]
  then Some true
  else if existsb (String.eqb str) ["0"; "f"; "F"; "FALSE"; "false"; "False"]
  then Some false
  else None.

(** ** [strconv]: floating point *)

Module Float.

(** [float32] and [float64]: precision and exponent bound of the format. *)
Inductive size : Set := F32 | F64.

Definition prec (sz : size) : Z := match sz with F32 => 24 | F64 => 53 end.
Definition emax (sz : size) : Z := match sz with F32 => 128 | F64 => 1024 end.
Definition emin (sz : size) : Z := 3 - emax sz - prec sz.

(** The float nearest to [num / den] (ties to even), with sign [neg];
    an infinity when the quotient is beyond the format. *)
Definition round_ratio (sz : size) (neg : bool) (num den : positive)
  : spec_float :=
  SFdiv (prec sz) (emax sz) (S754_finite neg num 0) (S754_finite false den 0).

(** The float nearest to [m * base ^ e], for [base] 10 or 2. *)
Definition round_scaled (sz : size) (neg : bool) (m base e : Z) : spec_float :=
  match m with
  | Zpos p =>
      if 0 <=? e
      then round_ratio sz neg (p * Z.to_pos (base ^ e)) 1
      else round_ratio sz neg p (Z.to_pos (base ^ (- e)))
  | _ => S754_zero neg
  end.

(** Conversion to [float32], as [reflect.Value.SetFloat] does on a field of
    that kind. *)
Definition to_size (sz : size) (f : spec_float) : spec_float :=
  match f with
  | S754_finite s m e => round_scaled sz s (Zpos m) 2 e
  | _ => f
  end.

Definition of_Z (z : Z) : spec_float :=
  round_scaled F64 (z <? 0) (Z.abs z) 2 0.

(** *** [strconv.ParseFloat(s, 64)] *)

Definition lower_letter (c : ascii) : ascii :=
  if (65 <=? byte c) && (byte c <=? 90)
  then ascii_of_N (N_of_ascii c + 32) else c.

Fixpoint lower_letters (s : string) : string :=
  match s with
  | EmptyString => EmptyString
  | String c rest => String (lower_letter c) (lower_letters rest)
  end.

(** [special]: the spellings of the infinities and of NaN, in any case. *)
Definition special (s : string) : option spec_float :=
  let l := lower_letters s in
  if existsb (String.eqb l) ["inf"; "+inf"; "infinity"; "+infinity"]
  then Some (S754_infinity false)
  else if existsb (String.eqb l) ["-inf"; "-infinity"]
  then Some (S754_infinity true)
  else if String.eqb l "nan" then Some S754_nan
  else None.

(** [lower(c) == x] in [strconv]: [c | 0x20 == x], for a lower-case
    letter [x]. *)
Definition is_letter (x : ascii) (c : ascii) : bool :=
  Ascii.eqb c x || (byte c + 32 =? byte x).

Definition is_hex_letter (c : ascii) : bool :=
  ((97 <=? byte c) && (byte c <=? 102)) || ((65 <=? byte c) && (byte c <=? 70)).

Definition hex_letter_value (c : ascii) : Z :=
  if 97 <=? byte c then byte c - 97 + 10 else byte c - 65 + 10.

(** The variables of the mantissa loop of [readFloat].  [mantissa] holds
    every digit read (Go keeps the first 19 and a flag for the rest, and
    converts from the full digit string when the flag is set). *)
Record mant_state : Set := {
  sawdot : bool;
  sawdigits : bool;
  nd : Z;
  dp : Z;
  mantissa : Z;
  underscores : bool
}.

Fixpoint read_mantissa (hex : bool) (s : string) (st : mant_state)
  : mant_state * string :=
  match s with
  | EmptyString => (st, s)
  | String c rest =>
      if Ascii.eqb c "_" then
        read_mantissa hex rest
          {| sawdot := sawdot st; sawdigits := sawdigits st; nd := nd st;
             dp := dp st; mantissa := mantissa st; underscores := true |}
      else if Ascii.eqb c "." then
        if sawdot st then (st, s)
        else read_mantissa hex rest
          {| sawdot := true; sawdigits := sawdigits st; nd := nd st;
             dp := nd st; mantissa := mantissa st;
             underscores := underscores st |}
      else if is_digit c then
        if Ascii.eqb c "0" && (nd st =? 0) then
          read_mantissa hex rest
            {| sawdot := sawdot st; sawdigits := true; nd := nd st;
               dp := dp st - 1; mantissa := mantissa st;
               underscores := underscores st |}
        else
          read_mantissa hex rest
            {| sawdot := sawdot st; sawdigits := true; nd := nd st + 1;
               dp := dp st;
               mantissa := mantissa st * (if hex then 16 else 10)
                           + digit_value c;
               underscores := underscores st |}
      else if hex && is_hex_letter c then
        read_mantissa hex rest
          {| sawdot := sawdot st; sawdigits := true; nd := nd st + 1;
             dp := dp st;
             mantissa := mantissa st * 16 + hex_letter_value c;
             underscores := underscores st |}
      else (st, s)
  end.

(** The digits of the exponent; the value stops growing at 10000. *)
Fixpoint read_exponent (s : string) (e : Z) (us : bool) : Z * bool * string :=
  match s with
  | EmptyString => (e, us, s)
  | String c rest =>
      if is_digit c then
        read_exponent rest (if e <? 10000 then e * 10 + digit_value c else e) us
      else if Ascii.eqb c "_" then read_exponent rest e true
      else (e, us, s)
  end.

(** [underscoreOK]: an underscore must stand between two digits, or between
    a base prefix and a digit. *)
Inductive saw : Set := SawStart | SawDigit | SawUnderscore | SawOther.

Fixpoint underscore_scan (hex : bool) (s : string) (sw : saw) : bool :=
  match s with
  | EmptyString => match sw with SawUnderscore => false | _ => true end
  | String c rest =>
      if is_digit c || (hex && is_hex_letter c) then
        underscore_scan hex rest SawDigit
      else if Ascii.eqb c "_" then
        match sw with
        | SawDigit => underscore_scan hex rest SawUnderscore
        | _ => false
        end
      else
        match sw with
        | SawUnderscore => false
        | _ => underscore_scan hex rest SawOther
        end
  end.

Definition underscoreOK (s : string) : bool :=
  let s :=
    match s with
    | String c rest => if Ascii.eqb c "-" || Ascii.eqb c "+" then rest else s
    | EmptyString => s
    end in
  match s with
  | String c0 (String c1 rest) =>
      if Ascii.eqb c0 "0"
         && (is_letter "b" c1 || is_letter "o" c1 || is_letter "x" c1)
      then underscore_scan (is_letter "x" c1) rest SawDigit
      else underscore_scan false s SawStart
  | _ => underscore_scan false s SawStart
  end.

(** What [readFloat] returns when it accepts the whole of [s]: the sign,
    whether the number is hexadecimal, the mantissa and the exponent (of 10,
    or of 2 for a hexadecimal number).  [None] is a syntax error. *)
Definition readFloat (s : string) : option (bool * bool * Z * Z) :=
  match s with
  | EmptyString => None
  | String c rest =>
      let neg := Ascii.eqb c "-" in
      let s1 := if Ascii.eqb c "+" || neg then rest else s in
      let '(hex, s2) :=
        match s1 with
        | String c0 (String c1 (String c2 r)) =>
            if Ascii.eqb c0 "0" && is_letter "x" c1
            then (true, String c2 r) else (false, s1)
        | _ => (false, s1)
        end in
      let '(st, s3) :=
        read_mantissa hex s2
          {| sawdot := false; sawdigits := false; nd := 0; dp := 0;
             mantissa := 0; underscores := false |} in
      if negb (sawdigits st) then None else
      let dp0 := if sawdot st then dp st else nd st in
      let dp1 := if hex then dp0 * 4 else dp0 in
      let ndMant := if hex then nd st * 4 else nd st in
      let finish (dp2 : Z) (us : bool) (s5 : string) :=
        match s5 with
        | EmptyString =>
            if us && negb (underscoreOK s) then None
            else Some (neg, hex,
                       mantissa st,
                       if mantissa st =? 0 then 0 else dp2 - ndMant)
        | _ => None
        end in
      match s3 with
      | String ce s4 =>
          if is_letter (if hex then "p" else "e") ce then
            match s4 with
            | EmptyString => None
            | String cs r =>
                let esign := if Ascii.eqb cs "-" then -1 else 1 in
                let s5 :=
                  if Ascii.eqb cs "+" || Ascii.eqb cs "-" then r else s4 in
                match s5 with
                | String cd _ =>
                    if is_digit cd then
                      let '(e, us, s6) :=
                        read_exponent s5 0 (underscores st) in
                      finish (dp1 + e * esign) us s6
                    else None
                | EmptyString => None
                end
            end
          else None
      | EmptyString =>
          if hex then None else finish dp1 (underscores st) s3
      end
  end.

(** [strconv.ParseFloat(s, 64)]: the nearest [float64]; [None] is a non-nil
    error, either of syntax or of range (a number that rounds to an
    infinity). *)
Definition ParseFloat (s : string) : option spec_float :=
  match special s with
  | Some f => Some f
  | None =>
      match readFloat s with
      | None => None
      | Some (neg, hex, m, e) =>
          match round_scaled F64 neg m (if hex then 2 else 10) e with
          | S754_infinity _ => None
          | f => Some f
          end
      end
  end.

(** *** [%v] of a floating-point number

    [fmt] prints a float under [%v] as [strconv.FormatFloat(f, 'g', -1, n)]:
    the shortest string of decimal digits that parses back to the same
    float, the nearest to it among the shortest, laid out with an exponent
    when the decimal exponent is below -4 or at least 6. *)

(** A positive finite float [m * 2 ^ e] and the bounds of the numbers that
    round to it, as numerators over a common denominator. *)
Record interval : Set := {
  i_x : Z;
  i_lower : Z;
  i_upper : Z;
  i_den : Z;
  i_inclusive : bool
}.

Definition rounding_interval (sz : size) (m : positive) (e : Z) : interval :=
  let mz := Zpos m in
  let lower4 :=
    if (2 ^ (prec sz - 1) <? mz) || (e =? emin sz)
    then 4 * mz - 2 else 4 * mz - 1 in
  let n := if 0 <=? e - 2 then 2 ^ (e - 2) else 1 in
  let d := if 0 <=? e - 2 then 1 else 2 ^ (2 - e) in
  {| i_x := 4 * mz * n;
     i_lower := lower4 * n;
     i_upper := (4 * mz + 2) * n;
     i_den := d;
     i_inclusive := Z.even mz |}.

(** [num / den < 10 ^ k]. *)
Definition below_pow10 (num den k : Z) : bool :=
  if 0 <=? k then num <? 10 ^ k * den else num * 10 ^ (- k) <? den.

Fixpoint find_point (fuel : nat) (num den k : Z) : Z :=
  match fuel with
  | O => k
  | S fuel' =>
      if below_pow10 num den k then k else find_point fuel' num den (k + 1)
  end.

(** The position of the decimal point: the [k] with
    [10 ^ (k - 1) <= num / den < 10 ^ k]. *)
Definition decimal_point (num den : Z) : Z :=
  let b := Z.log2 num - Z.log2 den in
  find_point 8 num den ((b - 1) * 30102 / 100000 - 1).

(** The digits of the float cut or rounded up to [n] digits, when one of
    the two lies within the bounds (the nearer when both do, the even one on
    a tie). *)
Definition shortest_at (iv : interval) (point n : Z) : option Z :=
  let k := point - n in
  let up := if 0 <=? k then 1 else 10 ^ (- k) in
  let unit := if 0 <=? k then i_den iv * 10 ^ k else i_den iv in
  let q := (i_x iv * up) / unit in
  let r := (i_x iv * up) mod unit in
  let okdown :=
    if i_inclusive iv then i_lower iv * up <=? q * unit
    else i_lower iv * up <? q * unit in
  let okup :=
    if i_inclusive iv then (q + 1) * unit <=? i_upper iv * up
    else (q + 1) * unit <? i_upper iv * up in
  match okdown, okup with
  | true, true =>
      Some (if 2 * r <? unit then q
            else if unit <? 2 * r then q + 1
            else if Z.even q then q else q + 1)
  | true, false => Some q
  | false, true => Some (q + 1)
  | false, false => None
  end.

Fixpoint shortest_from (fuel : nat) (iv : interval) (point n : Z)
  : Z * Z :=
  match fuel with
  | O => (0, n)
  | S fuel' =>
      match shortest_at iv point n with
      | Some d => (d, n)
      | None => shortest_from fuel' iv point (n + 1)
      end
  end.

Fixpoint trim_zeros (fuel : nat) (d : Z) : Z :=
  match fuel with
  | O => d
  | S fuel' => if (d mod 10 =? 0) && (0 <? d) then trim_zeros fuel' (d / 10) else d
  end.

(** The shortest digits of a positive finite float and the position of its
    decimal point: the value printed is [0.d1d2...dn * 10 ^ point]. *)
Definition shortest (sz : size) (m : positive) (e : Z) : string * Z :=
  let iv := rounding_interval sz m e in
  let point := decimal_point (i_x iv) (i_den iv) in
  let '(d, n) := shortest_from 20 iv point 1 in
  let all := FormatInt d in
  let point' := point + (Z.of_nat (String.length all) - n) in
  (FormatInt (trim_zeros 20 d), point').

Fixpoint zeros (n : nat) : string :=
  match n with
  | O => EmptyString
  | S n' => String "0" (zeros n')
  end.

(** [%e] with all the digits: [d.ddde+XX]. *)
Definition fmtE (digs : string) (point : Z) : string :=
  let exp := point - 1 in
  let first := String.substring 0 1 digs in
  let rest := String.substring 1 (String.length digs - 1) digs in
  let frac := if String.eqb rest "" then "" else String "." rest in
  let sign := if exp <? 0 then "-" else "+" in
  let ex := FormatInt (Z.abs exp) in
  let ex2 := if Z.abs exp <? 10 then String "0" ex else ex in
  (first ++ frac ++ "e" ++ sign ++ ex2)%string.

(** [%f] with as many decimals as the digits need. *)
Definition fmtF (digs : string) (point : Z) : string :=
  let n := Z.of_nat (String.length digs) in
  let whole :=
    if 0 <? point
    then (String.substring 0 (Z.to_nat point) digs
          ++ zeros (Z.to_nat (point - n)))%string
    else "0" in
  let frac :=
    if point <? n
    then (String "." (zeros (Z.to_nat (- point))
          ++ String.substring (Z.to_nat point) (Z.to_nat n) digs))%string
    else "" in
  (whole ++ frac)%string.

Definition FormatFloat (sz : size) (f : spec_float) : string :=
  match f with
  | S754_nan => "NaN"
  | S754_infinity false => "+Inf"
  | S754_infinity true => "-Inf"
  | S754_zero false => "0"
  | S754_zero true => "-0"
  | S754_finite s m e =>
      let '(digs, point) := shortest sz m e in
      let exp := point - 1 in
      let body :=
        if (exp <? -4) || (6 <=? exp) then fmtE digs point
        else fmtF digs point in
      if s then String "-" body else body
  end.

End Float.
(** ** Cells and records *)

(** A cell of the grid, and more generally the scalar an [interface{}]
    holds.  The first five are the values of the predeclared types: nil, a
    [bool], an integer of any predeclared integer type, a [float32] or
    [float64], a [string].  [CNamed] is a value of a defined type over one
    of these (a [time.Duration], say): [underlying] is the value below and
    [text] is what [%v] prints for it, which is the result of the [Format],
    [Error] or [String] method of the type when it has one.  Values of
    composite types (structs, slices, maps) are not cells of this
    embedding. *)
Inductive Cell : Set :=
| CNil
| CBool (b : bool)
| CInt (z : Z)
| CFloat (sz : Float.size) (f : spec_float)
| CString (s : string)
| CNamed (text : string) (underlying : Cell).

(** [fmt.Sprintf("%v", c)]. *)
Definition fmtV (c : Cell) : string :=
  match c with
  | CNil => "<nil>"
  | CBool true => "true"
  | CBool false => "false"
  | CInt z => FormatInt z
  | CFloat sz f => Float.FormatFloat sz f
  | CString s => s
  | CNamed text _ => text
  end.

(** [h == name] for an [interface{}] [h] and a [string] [name]: true when
    the dynamic type of [h] is [string] and the two strings are equal (a
    value of a defined string type is not equal to any [string]). *)
Definition interface_eq_string (h : Cell) (name : string) : bool :=
  match h with
  | CString s => String.eqb s name
  | _ => false
  end.

Module reflect.

(** The kinds of the fields of the records embedded here.  Fields of kind
    struct or slice, which [setField] decodes through [encoding/json], and
    of the other composite kinds are outside the embedding. *)
Inductive Kind : Set :=
| Bool
| Int | Int8 | Int16 | Int32 | Int64
| Uint | Uint8 | Uint16 | Uint32 | Uint64 | Uintptr
| Float32 | Float64
| Interface
| String.

End reflect.

(** Width in bits of the integer kinds. *)
Definition int_bits (k : reflect.Kind) : Z :=
  match k with
  | reflect.Int8 | reflect.Uint8 => 8
  | reflect.Int16 | reflect.Uint16 => 16
  | reflect.Int32 | reflect.Uint32 => 32
  | _ => 64
  end.

(** A field of a struct type: its name, the value of the key [quire] in its
    tag (empty when the tag has no such key), the kind of its type, and,
    when that type is a defined type and not a predeclared one, what [%v]
    prints for a value of the type, from the underlying value. *)
Record StructField : Set := {
  Name : string;
  Tag : string;
  Kind : reflect.Kind;
  Defined : option (Cell -> string)
}.

(** A field of a struct value: its type and the underlying value it
    holds. *)
Record Field : Set := {
  field_type : StructField;
  field_value : Cell
}.

Definition Struct : Set := list Field.

(** The zero value of a kind. *)
Definition zero (k : reflect.Kind) : Cell :=
  match k with
  | reflect.Bool => CBool false
  | reflect.Float32 => CFloat Float.F32 (S754_zero false)
  | reflect.Float64 => CFloat Float.F64 (S754_zero false)
  | reflect.Interface => CNil
  | reflect.String => CString ""
  | _ => CInt 0
  end.

(** The values of a kind. *)
Definition has_kind (c : Cell) (k : reflect.Kind) : bool :=
  match k, c with
  | reflect.Bool, CBool _ => true
  | (reflect.Int | reflect.Int8 | reflect.Int16 | reflect.Int32
     | reflect.Int64), CInt z =>
      (- 2 ^ (int_bits k - 1) <=? z) && (z <? 2 ^ (int_bits k - 1))
  | (reflect.Uint | reflect.Uint8 | reflect.Uint16 | reflect.Uint32
     | reflect.Uint64 | reflect.Uintptr), CInt z =>
      (0 <=? z) && (z <? 2 ^ int_bits k)
  | reflect.Float32, CFloat Float.F32 f => valid_binary 24 128 f
  | reflect.Float64, CFloat Float.F64 f => valid_binary 53 1024 f
  | reflect.Interface, _ => true
  | reflect.String, CString _ => true
  | _, _ => false
  end.

Definition well_typed (s : Struct) : bool :=
  forallb (fun f => has_kind (field_value f) (Kind (field_type f))) s.

(** Types and values handed to the package as [interface{}] arguments. *)
Inductive GoType : Set :=
| TScalar (k : reflect.Kind)
| TStruct (fields : list StructField)
| TPtr (elem : GoType).

#[local] Set Warnings "-register-all".
Inductive GoValue : Set :=
| GCell (c : Cell)
| GStruct (s : Struct)
| GNilPtr
| GPtr (target : GoValue)
| GSlice (elemType : GoType) (elems : list GoValue).
#[local] Set Warnings "register-all".

(** [reflect.New(t).Elem()]: an addressable zero value of the type. *)
Definition zero_value (t : GoType) : GoValue :=
  match t with
  | TScalar k => GCell (zero k)
  | TStruct fields =>
      GStruct (map (fun ft => {| field_type := ft;
                                 field_value := zero (Kind ft) |}) fields)
  | TPtr _ => GNilPtr
  end.

(** The struct value of a type with the given field values, in order. *)
Definition combine_fields (t : list StructField) (vs : list Cell) : Struct :=
  map (fun p => {| field_type := fst p; field_value := snd p |})
      (combine t vs).

(** [field.Interface()]: the value of the field as a value of the type of
    the field. *)
Definition field_Interface (field : Field) : Cell :=
  match Defined (field_type field) with
  | Some print => CNamed (print (field_value field)) (field_value field)
  | None => field_value field
  end.

(** A field is exported when its name begins with a capital letter (of the
    ASCII range here). *)
Definition IsExported (name : string) : bool :=
  match name with
  | String c _ => (65 <=? byte c) && (byte c <=? 90)
  | EmptyString => false
  end.

(** [field.CanSet()], for a field of an addressable struct. *)
Definition CanSet (field : Field) : bool := IsExported (Name (field_type field)).

Definition set_value (field : Field) (v : Cell) : Field :=
  {| field_type := field_type field; field_value := v |}.

(** [field.SetString], [SetInt], [SetUint], [SetFloat], [SetBool]: the
    integer setters truncate to the width of the field, [SetFloat] rounds
    to [float32] on a field of that kind. *)
Definition SetString (field : Field) (x : string) : Field :=
  set_value field (CString x).

Definition SetInt (field : Field) (x : Z) : Field :=
  set_value field
    (CInt (GoInt.wrap_signed (int_bits (Kind (field_type field))) x)).

Definition SetUint (field : Field) (x : Z) : Field :=
  set_value field
    (CInt (GoInt.wrap_unsigned (int_bits (Kind (field_type field))) x)).

Definition SetFloat (field : Field) (x : spec_float) : Field :=
  set_value field
    match Kind (field_type field) with
    | reflect.Float32 => CFloat Float.F32 (Float.to_size Float.F32 x)
    | _ => CFloat Float.F64 x
    end.

Definition SetBool (field : Field) (x : bool) : Field :=
  set_value field (CBool x).

(** ** The collaborator: [SheetsClient] *)

Definition Grid : Set := list (list Cell).

(** A client is a state machine: each method answers from its state and
    moves to a new one. *)
Record SheetsClient (S : Type) : Type := {
  Read : string -> S -> result Grid * S;
  Write : string -> Grid -> S -> result unit * S;
  Append : string -> Grid -> S -> result unit * S;
  Clear : string -> S -> result unit * S;
  DeleteRows : string -> list Z -> S -> result unit * S
}.
Arguments Read {S}.
Arguments Write {S}.
Arguments Append {S}.
Arguments Clear {S}.
Arguments DeleteRows {S}.

(** The calls a client received, in order. *)
Inductive Call : Set :=
| ReadCall (range_ : string)
| WriteCall (range_ : string) (values : Grid)
| AppendCall (range_ : string) (values : Grid)
| DeleteRowsCall (sheetName : string) (rowIndices : list Z).

Record World (S : Type) : Type := {
  client_state : S;
  calls : list Call
}.
Arguments client_state {S}.
Arguments calls {S}.

(** Computations that call the client: a state monad over the world. *)
Definition M (S A : Type) : Type := World S -> A * World S.

Definition ret {S A : Type} (a : A) : M S A := fun w => (a, w).

Definition bind {S A B : Type} (m : M S A) (k : A -> M S B) : M S B :=
  fun w => let '(a, w') := m w in k a w'.

Notation "x <- m ;; k" := (bind m (fun x => k))
  (at level 61, m at next level, right associativity).

Definition call {S A : Type} (c : Call) (f : S -> A * S) : M S A :=
  fun w =>
    let '(a, s') := f (client_state w) in
    (a, {| client_state := s'; calls := calls w ++ [c] |}).

Definition client_Read {S} (c : SheetsClient S) (range_ : string)
  : M S (result Grid) :=
  call (ReadCall range_) (Read c range_).

Definition client_Write {S} (c : SheetsClient S) (range_ : string)
  (values : Grid) : M S (result unit) :=
  call (WriteCall range_ values) (Write c range_ values).

Definition client_Append {S} (c : SheetsClient S) (range_ : string)
  (values : Grid) : M S (result unit) :=
  call (AppendCall range_ values) (Append c range_ values).

Definition client_DeleteRows {S} (c : SheetsClient S) (sheetName : string)
  (rowIndices : list Z) : M S (result unit) :=
  call (DeleteRowsCall sheetName rowIndices) (DeleteRows c sheetName rowIndices).

(** [sort.Sort(sort.Reverse(sort.IntSlice(x)))]: the elements in
    non-increasing order.  (The result of sorting integers does not depend
    on the algorithm; insertion sort is used here.) *)
Fixpoint insert_desc (x : Z) (l : list Z) : list Z :=
  match l with
  | [] => [x]
  | y :: rest => if y <? x then x :: l else y :: insert_desc x rest
  end.

Fixpoint sort_Reverse_IntSlice (l : list Z) : list Z :=
  match l with
  | [] => []
  | x :: rest => insert_desc x (sort_Reverse_IntSlice rest)
  end.

(** ** Column lettering *)

(** [string(rune('A' + index%26))]: the operand always lies in 65..90, where
    the UTF-8 encoding of a rune is the single byte of that value. *)
Definition string_of_rune (r : Z) : string :=
  String (ascii_of_N (Z.to_N r)) EmptyString.

(** The loop of [columnIndexToLetter]:
    [for index >= 0 { result = string(rune('A'+index%26)) + result;
                      index = index/26 - 1 }].
    Go's [/] and [%] truncate towards zero ([Z.quot], [Z.rem]).  No
    operation of the loop can overflow: [index] only decreases towards -1. *)
Equations? columnIndexToLetter_loop (index : Z) (result : string) : string
  by wf (Z.to_nat (index + 1)) lt :=
  columnIndexToLetter_loop index result with Z_lt_dec index 0 => {
    | left _ => result
    | right _ =>
        columnIndexToLetter_loop (Z.quot index 26 - 1)
          (string_of_rune (65 + Z.rem index 26) ++ result)%string }.
Proof.
  pose proof (Z.quot_pos index 26 ltac:(lia) ltac:(lia)).
  assert (Z.quot index 26 <= index).
  { rewrite Z.quot_div_nonneg by lia.
    apply Z.div_le_upper_bound; lia. }
  lia.
Qed.

(** ** [table.go] *)

Record DB (S : Type) : Type := {
  spreadsheetID : string;
  client : SheetsClient S
}.
Arguments spreadsheetID {S}.
Arguments client {S}.

(** [Table]: a sheet of the spreadsheet. *)
Record Table (S : Type) : Type := {
  db : DB S;
  name : string
}.
Arguments db {S}.
Arguments name {S}.

(** [Filter]: a WHERE condition. *)
Record Filter : Set := {
  Column : string;
  Operator : string;
  Value : Cell
}.

(** [Query]: the builder of a query. *)
Record Query (S : Type) : Type := {
  table : Table S;
  filters : list Filter;
  limit : Z;
  orderBy : string;
  descending : bool
}.
Arguments table {S}.
Arguments filters {S}.
Arguments limit {S}.
Arguments orderBy {S}.
Arguments descending {S}.

(** The loop that the source writes out in [matchesFilter], in
    [matchesFilters] and in [scanRow]:
    [colIdx := -1; for i, h := range headers { if h == name { colIdx = i; break } }],
    started at position [i]. *)
Fixpoint find_column (headers : list Cell) (colName : string) (i : Z) : Z :=
  match headers with
  | [] => -1
  | h :: rest =>
      if interface_eq_string h colName then i
      else find_column rest colName (i + 1)
  end.

(** [compareValues]: the two operands as floats when both texts parse, as
    texts otherwise. *)
Definition compareValues (a b : Cell) : Z :=
  let aStr := fmtV a in
  let bStr := fmtV b in
  match Float.ParseFloat aStr, Float.ParseFloat bStr with
  | Some aNum, Some bNum =>
      if SFltb aNum bNum then -1
      else if SFltb bNum aNum then 1
      else 0
  | _, _ =>
      if string_lt aStr bStr then -1
      else if string_lt bStr aStr then 1
      else 0
  end.

(** [matchesOperator]: the [switch] on the operator. *)
Definition matchesOperator (cell : Cell) (op : string) (value : Cell) : bool :=
  let cellStr := fmtV cell in
  let valueStr := fmtV value in
  if String.eqb op "=" || String.eqb op "==" then String.eqb cellStr valueStr
  else if String.eqb op "!=" then negb (String.eqb cellStr valueStr)
  else if String.eqb op ">" then 0 <? compareValues cell value
  else if String.eqb op ">=" then 0 <=? compareValues cell value
  else if String.eqb op "<" then compareValues cell value <? 0
  else if String.eqb op "<=" then compareValues cell value <=? 0
  else if String.eqb op "contains" || String.eqb op "like"
  then Contains (ToLower cellStr) (ToLower valueStr)
  else false.

(** [matchesFilter].  The guard leaves [colIdx] within the row, so that
    [row[colIdx]] is always there (lemmas [find_column_range] and
    [elem_at_in_range]); the same holds in [matchesFilters] and [scanRow]. *)
Definition matchesFilter (row headers : list Cell) (filter : Filter) : bool :=
  let colIdx := find_column headers (Column filter) 0 in
  if (colIdx =? -1) || (len row <=? colIdx) then false
  else
    match elem_at row colIdx with
    | Some cell => matchesOperator cell (Operator filter) (Value filter)
    | None => false
    end.

(** [columnIndexToLetter]. *)
Definition columnIndexToLetter (index : Z) : string :=
  if index <? 0 then "A" else columnIndexToLetter_loop index "".

(** [fmt.Sprintf("%s!A%d:%s%d", name, actualRow, endCol, actualRow)]. *)
Definition row_range (name : string) (actualRow : Z) (endCol : string)
  : string :=
  (name ++ "!A" ++ FormatInt actualRow ++ ":" ++ endCol
   ++ FormatInt actualRow)%string.

(** [structToValues].  [field.Interface()] panics on a field that is not
    exported. *)
Fixpoint struct_fields_to_values (fields : Struct) : result (list Cell) :=
  match fields with
  | [] => Ok []
  | field :: rest =>
      let tag := Tag (field_type field) in
      if String.eqb tag "-" then struct_fields_to_values rest
      else if negb (IsExported (Name (field_type field))) then
        Panic "reflect.Value.Interface: cannot return value obtained from unexported field or method"
      else
        match struct_fields_to_values rest with
        | Ok values => Ok (field_Interface field :: values)
        | other => other
        end
  end.

Definition structToValues (record : GoValue) : result (list Cell) :=
  let v := match record with GPtr target => target | _ => record end in
  match v with
  | GStruct s => struct_fields_to_values s
  | _ => Err "record must be a struct"
  end.

(** [structSliceToValues]. *)
Fixpoint struct_slice_loop (elems : list GoValue) : result Grid :=
  match elems with
  | [] => Ok []
  | elem :: rest =>
      match structToValues elem with
      | Ok row =>
          match struct_slice_loop rest with
          | Ok rows => Ok (row :: rows)
          | other => other
          end
      | Err e => Err e
      | Panic p => Panic p
      end
  end.

Definition structSliceToValues (records : GoValue) : result Grid :=
  match records with
  | GSlice _ elems => struct_slice_loop elems
  | _ => Err "records must be a slice"
  end.

(** [setField]: the field after the call, or the error.  (Every path of the
    source returns a nil error.) *)
Definition setField (field : Field) (value : Cell) : result Field :=
  if negb (CanSet field) then Ok field
  else
    let valueStr := fmtV value in
    match Kind (field_type field) with
    | reflect.String => Ok (SetString field valueStr)
    | reflect.Int | reflect.Int8 | reflect.Int16 | reflect.Int32
    | reflect.Int64 =>
        match ParseInt valueStr with
        | Some i => Ok (SetInt field i)
        | None => Ok field
        end
    | reflect.Uint | reflect.Uint8 | reflect.Uint16 | reflect.Uint32
    | reflect.Uint64 =>
        match ParseUint valueStr with
        | Some i => Ok (SetUint field i)
        | None => Ok field
        end
    | reflect.Float32 | reflect.Float64 =>
        match Float.ParseFloat valueStr with
        | Some f => Ok (SetFloat field f)
        | None => Ok field
        end
    | reflect.Bool =>
        match ParseBool valueStr with
        | Some b => Ok (SetBool field b)
        | None => Ok field
        end
    | _ => Ok field
    end.

(** The column a field is bound to: its tag, or its name when the tag is
    empty. *)
Definition column_name (ft : StructField) : string :=
  if negb (String.eqb (Tag ft) "") then Tag ft else Name ft.

(** One turn of the loop of [scanRow]: the field after it, or the error. *)
Definition scan_field (row headers : list Cell) (field : Field)
  : result Field :=
  let tag := Tag (field_type field) in
  if String.eqb tag "-" then Ok field
  else
    let colName := column_name (field_type field) in
    let colIdx := find_column headers colName 0 in
    if (colIdx =? -1) || (len row <=? colIdx) then Ok field
    else
      match elem_at row colIdx with
      | Some cell =>
          match setField field cell with
          | Ok field' => Ok field'
          | Err e =>
              Err (wrap_error
                     ("failed to set field " ++ Name (field_type field))%string
                     e)
          | Panic p => Panic p
          end
      | None => Panic "index out of range"
      end.

Fixpoint scan_fields (row headers : list Cell) (fields : Struct)
  : result Struct :=
  match fields with
  | [] => Ok []
  | field :: rest =>
      match scan_field row headers field with
      | Ok field' =>
          match scan_fields row headers rest with
          | Ok rest' => Ok (field' :: rest')
          | other => other
          end
      | Err e => Err e
      | Panic p => Panic p
      end
  end.

(** [scanRow], on a destination whose fields are addressable: the struct
    after the call, or the error. *)
Definition scanRow (row headers : list Cell) (dest : GoValue) : result Struct :=
  let dest := match dest with GPtr target => target | _ => dest end in
  match dest with
  | GStruct s => scan_fields row headers s
  | _ => Err "dest must be a struct"
  end.

(** The loop of [scanIntoSlice] over the rows. *)
Fixpoint scan_rows (rows : Grid) (headers : list Cell) (elemType : GoType)
  (sliceVal : list GoValue) : result (list GoValue) :=
  match rows with
  | [] => Ok sliceVal
  | row :: rest =>
      let elem := zero_value elemType in
      match scanRow row headers elem with
      | Ok s => scan_rows rest headers elemType (sliceVal ++ [GStruct s])
      | Err e => Err e
      | Panic p => Panic p
      end
  end.

(** [scanIntoSlice]: the destination after the call, or the error (the
    destination is then as it was). *)
Definition scanIntoSlice (rows : Grid) (headers : list Cell) (dest : GoValue)
  : result GoValue :=
  match dest with
  | GPtr (GSlice elemType elems) =>
      match scan_rows rows headers elemType elems with
      | Ok sliceVal => Ok (GPtr (GSlice elemType sliceVal))
      | Err e => Err e
      | Panic p => Panic p
      end
  | _ => Err "dest must be a pointer to a slice"
  end.

Section Operations.

Context {S : Type}.

(** [Table.Query]. *)
Definition NewQuery (t : Table S) : Query S :=
  {| table := t; filters := []; limit := 0; orderBy := "";
     descending := false |}.

(** [Query.Where], [Query.Limit], [Query.OrderBy]. *)
Definition Where (q : Query S) (column operator : string) (value : Cell)
  : Query S :=
  {| table := table q;
     filters := filters q ++ [{| Column := column; Operator := operator;
                                 Value := value |}];
     limit := limit q; orderBy := orderBy q; descending := descending q |}.

Definition Limit (q : Query S) (n : Z) : Query S :=
  {| table := table q; filters := filters q; limit := n;
     orderBy := orderBy q; descending := descending q |}.

Definition OrderBy (q : Query S) (column : string) (desc : bool) : Query S :=
  {| table := table q; filters := filters q; limit := limit q;
     orderBy := column; descending := desc |}.

(** [Query.matchesFilters], [Query.applyFilters], [Query.applySort],
    [Query.applyLimit]. *)
Fixpoint matchesFilters_loop (fs : list Filter) (row headers : list Cell)
  : bool :=
  match fs with
  | [] => true
  | f :: rest =>
      let colIdx := find_column headers (Column f) 0 in
      if (colIdx =? -1) || (len row <=? colIdx) then false
      else
        match elem_at row colIdx with
        | Some cell =>
            if negb (matchesOperator cell (Operator f) (Value f)) then false
            else matchesFilters_loop rest row headers
        | None => false
        end
  end.

Definition matchesFilters (q : Query S) (row headers : list Cell) : bool :=
  matchesFilters_loop (filters q) row headers.

Definition applyFilters (q : Query S) (rows : Grid) (headers : list Cell)
  : Grid :=
  if len (filters q) =? 0 then rows
  else List.filter (fun row => matchesFilters q row headers) rows.

Definition applySort (q : Query S) (rows : Grid) (headers : list Cell)
  : Grid := rows.

Definition applyLimit (q : Query S) (rows : Grid) : Grid :=
  if (0 <? limit q) && (limit q <? len rows)
  then firstn (Z.to_nat (limit q)) rows
  else rows.

(** [Query.Get]: the destination after the call, or the error (the
    destination is then as it was). *)
Definition Get (q : Query S) (dest : GoValue) : M S (result GoValue) :=
  let range_ := name (table q) in
  r <- client_Read (client (db (table q))) range_ ;;
  match r with
  | Err e => ret (Err (wrap_error "failed to read data" e))
  | Panic p => ret (Panic p)
  | Ok data =>
      if len data <? 2 then ret (Ok dest)
      else
        match data with
        | headers :: rows =>
            let filtered := applyFilters q rows headers in
            let filtered :=
              if negb (String.eqb (orderBy q) "")
              then applySort q filtered headers else filtered in
            let filtered := applyLimit q filtered in
            ret (scanIntoSlice filtered headers dest)
        | [] => ret (Ok dest)
        end
  end.

(** [Table.Insert]. *)
Definition Insert (t : Table S) (records : GoValue) : M S (result unit) :=
  match structSliceToValues records with
  | Err e => ret (Err (wrap_error "failed to convert records" e))
  | Panic p => ret (Panic p)
  | Ok values =>
      let range_ := (name t ++ "!A1")%string in
      client_Append (client (db t)) range_ values
  end.

(** [Table.Update]. *)
Definition Update (t : Table S) (rowIndex : Z) (record : GoValue)
  : M S (result unit) :=
  if rowIndex <? 0 then ret (Err "row index cannot be negative")
  else
    match structToValues record with
    | Err e => ret (Err (wrap_error "failed to convert record" e))
    | Panic p => ret (Panic p)
    | Ok values =>
        let actualRow := GoInt.add rowIndex 2 in
        let colCount := len values in
        let endCol := columnIndexToLetter (colCount - 1) in
        let range_ := row_range (name t) actualRow endCol in
        client_Write (client (db t)) range_ [values]
    end.

(** The loops of [UpdateWhere] and [DeleteWhere] over the data rows, from
    position [i] on: the first collects [i], the second [i + 1].  The
    positions are below the length of a slice, so the additions do not
    overflow. *)
Fixpoint UpdateWhere_indices (rows : Grid) (headers : list Cell)
  (filter : Filter) (i : Z) : list Z :=
  match rows with
  | [] => []
  | row :: rest =>
      if matchesFilter row headers filter
      then i :: UpdateWhere_indices rest headers filter (i + 1)
      else UpdateWhere_indices rest headers filter (i + 1)
  end.

Fixpoint DeleteWhere_indices (rows : Grid) (headers : list Cell)
  (filter : Filter) (i : Z) : list Z :=
  match rows with
  | [] => []
  | row :: rest =>
      if matchesFilter row headers filter
      then (i + 1) :: DeleteWhere_indices rest headers filter (i + 1)
      else DeleteWhere_indices rest headers filter (i + 1)
  end.

(** The loop of writes of [UpdateWhere]; it stops at the first failure. *)
Fixpoint UpdateWhere_writes (t : Table S) (indices : list Z) (endCol : string)
  (values : list Cell) : M S (result unit) :=
  match indices with
  | [] => ret (Ok tt)
  | idx :: rest =>
      let actualRow := idx + 2 in
      let range_ := row_range (name t) actualRow endCol in
      r <- client_Write (client (db t)) range_ [values] ;;
      match r with
      | Ok _ => UpdateWhere_writes t rest endCol values
      | Err e =>
          ret (Err (wrap_error
                      ("failed to update row " ++ FormatInt idx)%string e))
      | Panic p => ret (Panic p)
      end
  end.

(** [Table.UpdateWhere]. *)
Definition UpdateWhere (t : Table S) (column operator : string) (value : Cell)
  (record : GoValue) : M S (result unit) :=
  r <- client_Read (client (db t)) (name t) ;;
  match r with
  | Err e => ret (Err (wrap_error "failed to read data" e))
  | Panic p => ret (Panic p)
  | Ok data =>
      if len data <? 2 then ret (Ok tt)
      else
        match data with
        | headers :: rows =>
            let filter := {| Column := column; Operator := operator;
                             Value := value |} in
            let indices := UpdateWhere_indices rows headers filter 0 in
            if len indices =? 0 then ret (Ok tt)
            else
              match structToValues record with
              | Err e => ret (Err (wrap_error "failed to convert record" e))
              | Panic p => ret (Panic p)
              | Ok values =>
                  let colCount := len values in
                  let endCol := columnIndexToLetter (colCount - 1) in
                  UpdateWhere_writes t indices endCol values
              end
        | [] => ret (Ok tt)
        end
  end.

(** [Table.Delete]. *)
Definition Delete (t : Table S) (rowIndex : Z) : M S (result unit) :=
  if rowIndex <? 0 then ret (Err "row index cannot be negative")
  else
    let actualRow := GoInt.add rowIndex 1 in
    client_DeleteRows (client (db t)) (name t) [actualRow].

(** [Table.DeleteWhere]. *)
Definition DeleteWhere (t : Table S) (column operator : string) (value : Cell)
  : M S (result unit) :=
  r <- client_Read (client (db t)) (name t) ;;
  match r with
  | Err e => ret (Err (wrap_error "failed to read data" e))
  | Panic p => ret (Panic p)
  | Ok data =>
      if len data <? 2 then ret (Ok tt)
      else
        match data with
        | headers :: rows =>
            let filter := {| Column := column; Operator := operator;
                             Value := value |} in
            let indices := DeleteWhere_indices rows headers filter 0 in
            if len indices =? 0 then ret (Ok tt)
            else
              let indices := sort_Reverse_IntSlice indices in
              client_DeleteRows (client (db t)) (name t) indices
        | [] => ret (Ok tt)
        end
  end.

End Operations.

(** ** Definitions that follow the words of the specification *)

(** The lettering the specification describes: base 26 with the digits
    A = 1, ..., Z = 26 and no zero digit, the column of index [i] being the
    numeral of [i + 1]. *)
Definition letter_digit (c : ascii) : Z := byte c - 64.

Fixpoint letters_value_from (acc : Z) (s : string) : Z :=
  match s with
  | EmptyString => acc
  | String c rest => letters_value_from (acc * 26 + letter_digit c) rest
  end.

Definition letters_value (s : string) : Z := letters_value_from 0 s.

Definition is_upper (c : ascii) : bool :=
  (1 <=? letter_digit c) && (letter_digit c <=? 26).

Fixpoint all_upper (s : string) : bool :=
  match s with
  | EmptyString => true
  | String c rest => is_upper c && all_upper rest
  end.

(** The 0-based positions of the data rows that match a filter, in
    increasing order. *)
Definition matching_positions (rows : Grid) (headers : list Cell)
  (filter : Filter) : list Z :=
  map Z.of_nat
    (List.filter
       (fun i => match nth_error rows i with
                 | Some row => matchesFilter row headers filter
                 | None => false
                 end)
       (seq 0 (List.length rows))).

(** The world after one more call, answered from state [s]. *)
Definition after {S : Type} (w : World S) (c : Call) (s : S) : World S :=
  {| client_state := s; calls := calls w ++ [c] |}.

(** The spellings [strconv.ParseBool] accepts. *)
Definition true_spellings : list string :=
  ["1"; "t"; "T"; "TRUE"; "true"; "True"].

Definition false_spellings : list string :=
  ["0"; "f"; "F"; "FALSE"; "false"; "False"].

(** The text of a cell parses as a float; as a float that is not NaN. *)
Definition parses (c : Cell) : bool :=
  match Float.ParseFloat (fmtV c) with
  | Some _ => true
  | None => false
  end.

Definition parses_number (c : Cell) : bool :=
  match Float.ParseFloat (fmtV c) with
  | Some S754_nan => false
  | Some _ => true
  | None => false
  end.

(** The triples on which [compareValues] compares all three pairs the same
    way: all three texts are numbers, or at most one of them parses. *)
Definition uniform (a b c : Cell) : Prop :=
  (parses_number a = true /\ parses_number b = true
   /\ parses_number c = true) \/
  (parses a = false /\ parses b = false) \/
  (parses a = false /\ parses c = false) \/
  (parses b = false /\ parses c = false).

(** The three-way result of a comparison. *)
Definition sign_of (c : comparison) : Z :=
  match c with
  | Lt => -1
  | Eq => 0
  | Gt => 1
  end.

(** A key that orders the floats other than NaN as [SFcompare] does:
    the infinities outside, the zeros in the middle, the finite numbers by
    exponent and mantissa. *)
Definition float_key (f : spec_float) : Z * Z * Z :=
  match f with
  | S754_infinity true => (-2, 0, 0)
  | S754_infinity false => (2, 0, 0)
  | S754_finite true m e => (-1, - e, - Zpos m)
  | S754_finite false m e => (1, e, Zpos m)
  | _ => (0, 0, 0)
  end.

Definition lex_compare (a b : Z * Z * Z) : comparison :=
  let '(k1, e1, m1) := a in
  let '(k2, e2, m2) := b in
  match k1 ?= k2 with
  | Eq => match e1 ?= e2 with
          | Eq => m1 ?= m2
          | c => c
          end
  | c => c
  end.

(** What [SetFloat] stores in a field of the kind. *)
Definition stored_float (k : reflect.Kind) (y : spec_float) : Cell :=
  match k with
  | reflect.Float32 => CFloat Float.F32 (Float.to_size Float.F32 y)
  | _ => CFloat Float.F64 y
  end.

(** The fields whose value can come back from its own text: a float
    field when the text of its value parses back to the value, a field of
    kind interface or uintptr (which [setField] never sets) when it holds
    the zero value, and every field of kind string, integer or bool. *)
Definition text_round_trips (f : Field) : Prop :=
  match Kind (field_type f) with
  | reflect.Float32 | reflect.Float64 =>
      exists y,
        Float.ParseFloat (fmtV (field_value f)) = Some y /\
        stored_float (Kind (field_type f)) y = field_value f
  | reflect.Interface | reflect.Uintptr =>
      field_value f = zero (Kind (field_type f))
  | _ => True
  end.

(** The fields whose value prints as the underlying value does: those of
    a predeclared type, and those of a defined type that [%v] prints the
    same (a type with no [Format], [Error] or [String] method). *)
Definition prints_plainly (f : Field) : Prop :=
  fmtV (field_Interface f) = fmtV (field_value f).

(** The header that lists the columns of a record in the order of its
    fields. *)
Definition header_of (s : Struct) : list Cell :=
  map (fun f => CString (column_name (field_type f))) s.

(** The fresh destination of the type of a record. *)
Definition fresh (s : Struct) : GoValue :=
  zero_value (TStruct (map field_type s)).

(** ** Values used by the examples and witnesses *)

Definition f64 (z : Z) : Cell := CFloat Float.F64 (Float.of_Z z).

Definition TestUser : list StructField :=
  [ {| Name := "ID"; Tag := "ID"; Kind := reflect.Int;
       Defined := None |};
    {| Name := "Name"; Tag := "Name"; Kind := reflect.String;
       Defined := None |};
    {| Name := "Email"; Tag := "Email"; Kind := reflect.String;
       Defined := None |};
    {| Name := "Age"; Tag := "Age"; Kind := reflect.Int;
       Defined := None |} ].

Definition user (id : Z) (nm email : string) (age : Z) : Struct :=
  combine_fields TestUser [CInt id; CString nm; CString email; CInt age].

(** A client that serves one grid and accepts every write, as the mock of
    the tests does. *)
Definition mock_client (data : Grid) : SheetsClient unit :=
  {| Read := fun _ s => (Ok data, s);
     Write := fun _ _ s => (Ok tt, s);
     Append := fun _ _ s => (Ok tt, s);
     Clear := fun _ s => (Ok tt, s);
     DeleteRows := fun _ _ s => (Ok tt, s) |}.

Definition mock_table (data : Grid) : Table unit :=
  {| db := {| spreadsheetID := "sheet"; client := mock_client data |};
     name := "Users" |}.

Definition start : World unit := {| client_state := tt; calls := [] |}.

Definition people : Grid :=
  [ map CString ["ID"; "Name"; "Age"];
    [f64 1; CString "Alice"; f64 30];
    [f64 2; CString "Bob"; f64 25];
    [f64 3; CString "Charlie"; f64 35] ].

Definition Person : list StructField :=
  [ {| Name := "ID"; Tag := ""; Kind := reflect.Int;
       Defined := None |};
    {| Name := "Name"; Tag := ""; Kind := reflect.String;
       Defined := None |};
    {| Name := "Age"; Tag := ""; Kind := reflect.Int;
       Defined := None |} ].

Definition person (id : Z) (nm : string) (age : Z) : GoValue :=
  GStruct (combine_fields Person [CInt id; CString nm; CInt age]).

(** A boolean field of a freshly made record. *)
Definition Active : Field :=
  {| field_type := {| Name := "Active"; Tag := ""; Kind := reflect.Bool;
       Defined := None |};
     field_value := CBool false |}.

Definition Pair : list StructField :=
  [ {| Name := "A"; Tag := ""; Kind := reflect.String;
       Defined := None |};
    {| Name := "B"; Tag := ""; Kind := reflect.String;
       Defined := None |} ].

Definition Product : list StructField :=
  [ {| Name := "SKU"; Tag := "SKU"; Kind := reflect.String;
       Defined := None |};
    {| Name := "Stock"; Tag := ""; Kind := reflect.Int32;
       Defined := None |};
    {| Name := "Price"; Tag := "Price"; Kind := reflect.Float64;
       Defined := None |};
    {| Name := "Active"; Tag := ""; Kind := reflect.Bool;
       Defined := None |} ].

(** 3.14 as a [float64]. *)
Definition pi_ish : spec_float := S754_finite false 7070651414971679 (-51).

Definition widget : Struct :=
  combine_fields Product
    [CString "W-1"; CInt (-7); CFloat Float.F64 pi_ish; CBool true].

(** Records on which the round trip of the codec breaks for a reason other
    than the order of the header: a field that is not exported, two fields
    bound to one column, a field of kind interface. *)
Definition Hidden : list StructField :=
  [ {| Name := "ID"; Tag := ""; Kind := reflect.Int;
       Defined := None |};
    {| Name := "secret"; Tag := ""; Kind := reflect.String;
       Defined := None |} ].

Definition Twice : list StructField :=
  [ {| Name := "First"; Tag := "X"; Kind := reflect.String;
       Defined := None |};
    {| Name := "Second"; Tag := "X"; Kind := reflect.String;
       Defined := None |} ].

Definition Loose : list StructField :=
  [ {| Name := "Any"; Tag := ""; Kind := reflect.Interface;
       Defined := None |} ].

(** A record with a field of a defined integer type whose [String] method
    appends a unit to the number ([time.Duration] prints 5 as 5ns). *)
Definition with_unit (c : Cell) : string := (fmtV c ++ "ns")%string.

Definition Timed : list StructField :=
  [ {| Name := "Wait"; Tag := ""; Kind := reflect.Int64;
       Defined := Some with_unit |} ].
(** ** Further definitions used to state properties of the code *)

(** A field the codec skips: its tag is [-]. *)
Definition ignored (f : Field) : bool := String.eqb (Tag (field_type f)) "-".

(** The cell of a row under a column name: the cell at the position of the
    first header cell that is the string [colName], when the row reaches
    that far. *)
Fixpoint lookup_cell (headers row : list Cell) (colName : string)
  : option Cell :=
  match headers, row with
  | h :: hs, c :: cs =>
      if interface_eq_string h colName then Some c
      else lookup_cell hs cs colName
  | _, _ => None
  end.

(** The same on the list of the pairs (header cell, cell). *)
Fixpoint assoc_cell (pairs : list (Cell * Cell)) (colName : string)
  : option Cell :=
  match pairs with
  | [] => None
  | (h, c) :: rest =>
      if interface_eq_string h colName then Some c
      else assoc_cell rest colName
  end.

(** The nine operators [matchesOperator] knows. *)
Definition operators : list string :=
  ["="; "=="; "!="; ">"; ">="; "<"; "<="; "contains"; "like"].

(** The struct types among the element types of a destination slice. *)
Definition is_struct_type (t : GoType) : bool :=
  match t with
  | TStruct _ => true
  | _ => false
  end.

(** The call [UpdateWhere] issues for the data row at position [p]. *)
Definition write_of {S : Type} (t : Table S) (endCol : string)
  (values : list Cell) (p : Z) : Call :=
  WriteCall (row_range (name t) (p + 2) endCol) [values].

(** Kinds of calls. *)
Definition is_Read (c : Call) : bool :=
  match c with ReadCall _ => true | _ => false end.

Definition is_Write (c : Call) : bool :=
  match c with WriteCall _ _ => true | _ => false end.

Definition is_Append (c : Call) : bool :=
  match c with AppendCall _ _ => true | _ => false end.

Definition is_DeleteRows (c : Call) : bool :=
  match c with DeleteRowsCall _ _ => true | _ => false end.

(** A client whose reads fail. *)
Definition broken_client : SheetsClient unit :=
  {| Read := fun _ s => (Err "quota exceeded", s);
     Write := fun _ _ s => (Ok tt, s);
     Append := fun _ _ s => (Ok tt, s);
     Clear := fun _ s => (Ok tt, s);
     DeleteRows := fun _ _ s => (Ok tt, s) |}.

Definition broken_table : Table unit :=
  {| db := {| spreadsheetID := "sheet"; client := broken_client |};
     name := "Users" |}.

(** A client that counts the writes it has accepted and refuses the
    third. *)
Definition third_write_fails (data : Grid) : SheetsClient nat :=
  {| Read := fun _ s => (Ok data, s);
     Write := fun _ _ s =>
       if Nat.eqb s 2 then (Err "write refused", s) else (Ok tt, Datatypes.S s);
     Append := fun _ _ s => (Ok tt, s);
     Clear := fun _ s => (Ok tt, s);
     DeleteRows := fun _ _ s => (Ok tt, s) |}.

(** The integer kinds [setField] parses for. *)
Definition signed_kinds : list reflect.Kind :=
  [reflect.Int; reflect.Int8; reflect.Int16; reflect.Int32; reflect.Int64].

Definition unsigned_kinds : list reflect.Kind :=
  [reflect.Uint; reflect.Uint8; reflect.Uint16; reflect.Uint32;
   reflect.Uint64].

Definition float_kinds : list reflect.Kind :=
  [reflect.Float32; reflect.Float64].

(** A record with an ignored field and a narrow integer. *)
Definition Sensor : list StructField :=
  [ {| Name := "ID"; Tag := "id"; Kind := reflect.Int8;
       Defined := None |};
    {| Name := "Note"; Tag := "-"; Kind := reflect.String;
       Defined := None |};
    {| Name := "Count"; Tag := ""; Kind := reflect.Uint16;
       Defined := None |} ].

Definition sensor : Struct :=
  combine_fields Sensor [CInt 5; CString "private"; CInt 9].

(** The message of the panic of [reflect.Value.Interface] on a field that
    is not exported. *)
Definition unexported_msg : string :=
  "reflect.Value.Interface: cannot return value obtained from unexported field or method".

(** The first field of [sensor]. *)
Definition id_field : Field :=
  {| field_type := {| Name := "ID"; Tag := "id"; Kind := reflect.Int8;
       Defined := None |};
     field_value := CInt 5 |}.


(** A table on that client, and the world before its first call. *)
Definition flaky_table : Table nat :=
  {| db := {| spreadsheetID := "sheet"; client := third_write_fails people |};
     name := "Users" |}.

Definition flaky_start : World nat := {| client_state := 0%nat; calls := [] |}.

(** A value with a field that is not exported. *)
Definition hidden : GoValue :=
  GStruct (combine_fields Hidden [CInt 1; CString "s"]).

(** Text of the ASCII range: every byte is below 128. *)
Fixpoint is_ascii (s : string) : bool :=
  match s with
  | EmptyString => true
  | String c rest => (byte c <? 128) && is_ascii rest
  end.

(** Two bytes that are equal, or the capital and the small form of one
    letter of A to Z. *)
Definition same_letter (a b : ascii) : bool :=
  (byte a =? byte b)
  || ((65 <=? byte a) && (byte a <=? 90) && (byte b =? byte a + 32))
  || ((65 <=? byte b) && (byte b <=? 90) && (byte a =? byte b + 32)).

(** Two texts that are equal up to the case of the letters A to Z. *)
Fixpoint equal_fold (s t : string) : bool :=
  match s, t with
  | EmptyString, EmptyString => true
  | String a s', String b t' => same_letter a b && equal_fold s' t'
  | _, _ => false
  end.

(** The state of the client after it has accepted, one after the other
    from state [s], the writes [UpdateWhere] issues for the positions [ps];
    [None] when it does not accept them all. *)
Fixpoint accepted {S : Type} (t : Table S) (endCol : string)
  (values : list Cell) (ps : list Z) (s : S) : option S :=
  match ps with
  | [] => Some s
  | p :: rest =>
      match Write (client (db t)) (row_range (name t) (p + 2) endCol)
              [values] s with
      | (Ok _, s') => accepted t endCol values rest s'
      | _ => None
      end
  end.
(** * Properties *)

(** ** The tests of the repository, run on the embedding *)

(** [TestColumnIndexToLetter]. *)
Example columnIndexToLetter_tests :
  map columnIndexToLetter [0; 1; 25; 26; 27; 51; 52; 701; 702; -1]
  = ["A"; "B"; "Z"; "AA"; "AB"; "AZ"; "BA"; "ZZ"; "AAA"; "A"].
Proof. vm_compute. reflexivity. Qed.

(** [TestCompareValues]. *)
Example compareValues_tests :
  [ compareValues (f64 10) (f64 10);
    compareValues (f64 20) (f64 10);
    compareValues (f64 5) (f64 10);
    compareValues (CString "abc") (CString "abc");
    compareValues (CString "xyz") (CString "abc");
    compareValues (CString "abc") (CString "xyz");
    compareValues (CString "20") (CString "10");
    compareValues (CString "abc") (f64 123) ]
  = [0; 1; -1; 0; 1; -1; 1; 1].
Proof. vm_compute. reflexivity. Qed.

(** [TestMatchesOperator]. *)
Example matchesOperator_tests :
  [ matchesOperator (CString "hello") "=" (CString "hello");
    matchesOperator (CString "hello") "=" (CString "world");
    matchesOperator (CString "test") "==" (CString "test");
    matchesOperator (CString "hello") "!=" (CString "world");
    matchesOperator (f64 10) ">" (f64 5);
    matchesOperator (f64 5) ">=" (f64 10);
    matchesOperator (f64 10) "<=" (f64 10);
    matchesOperator (CString "20") ">" (CString "10");
    matchesOperator (CString "Hello World") "contains" (CString "world");
    matchesOperator (CString "Hello World") "contains" (CString "foo");
    matchesOperator (CString "HELLO") "like" (CString "hello");
    matchesOperator (CString "test") "unknown" (CString "test") ]
  = [true; false; true; true; true; false; true; true; true; false; true; false].
Proof. vm_compute. reflexivity. Qed.

(** [TestScanRow], "scan valid row" and "scan with missing columns". *)
Example scanRow_tests :
  let headers := map CString ["ID"; "Name"; "Email"; "Age"] in
  scanRow [f64 1; CString "Alice"; CString "alice@test.com"; f64 30]
    headers (zero_value (TStruct TestUser))
  = Ok (user 1 "Alice" "alice@test.com" 30)
  /\ scanRow [f64 1; CString "Alice"] headers (zero_value (TStruct TestUser))
     = Ok (user 1 "Alice" "" 0)
  /\ scanRow [f64 1] [CString "ID"] (zero_value (TScalar reflect.Int))
     = Err "dest must be a struct".
Proof. vm_compute. repeat split. Qed.

(** The scenarios of the specification: [Where("Age", ">=", 28)] and
    [Where("Name", "contains", "li")] both give Alice and Charlie, in the
    order of the rows. *)
Example Get_scenarios :
  let q := NewQuery (mock_table people) in
  let dest := GPtr (GSlice (TStruct Person) []) in
  let expected :=
    Ok (GPtr (GSlice (TStruct Person)
                [person 1 "Alice" 30; person 3 "Charlie" 35])) in
  fst (Get (Where q "Age" ">=" (CInt 28)) dest start) = expected
  /\ fst (Get (Where q "Name" "contains" (CString "li")) dest start) = expected.
Proof. vm_compute. split; reflexivity. Qed.

(** [update(0, rec)] addresses row 2 and [delete(0)] index 1. *)
Example Update_Delete_scenarios :
  calls (snd (Update (mock_table people) 0 (person 1 "Al" 31) start))
  = [WriteCall "Users!A2:C2" [[CInt 1; CString "Al"; CInt 31]]]
  /\ calls (snd (Delete (mock_table people) 0 start))
     = [DeleteRowsCall "Users" [1]].
Proof. vm_compute. split; reflexivity. Qed.

(** [TestTable_DeleteWhere], "delete matching rows". *)
Example DeleteWhere_test :
  let data :=
    [ map CString ["ID"; "Name"; "Status"];
      [f64 1; CString "Alice"; CString "deleted"];
      [f64 2; CString "Bob"; CString "active"];
      [f64 3; CString "Charlie"; CString "deleted"] ] in
  calls (snd (DeleteWhere (mock_table data) "Status" "=" (CString "deleted")
                start))
  = [ReadCall "Users"; DeleteRowsCall "Users" [3; 1]].
Proof. vm_compute. reflexivity. Qed.

(** [%v] of a [float64]: the shortest digits that parse back, with an
    exponent from 1e+06 up and below 0.0001. *)
Example FormatFloat_examples :
  map (fun s => option_map (Float.FormatFloat Float.F64) (Float.ParseFloat s))
    ["30"; "3.14"; "0.1"; "100000"; "1000000"; "123456789"; "0.0001";
     "0.00001"; "-2.5"; "1e23"; "9007199254740993"; "5e-324"; "-0"; "Inf";
     "nan"]
  = map Some
      ["30"; "3.14"; "0.1"; "100000"; "1e+06"; "1.23456789e+08"; "0.0001";
       "1e-05"; "-2.5"; "1e+23"; "9.007199254740992e+15"; "5e-324"; "-0";
       "+Inf"; "NaN"].
Proof. vm_compute. reflexivity. Qed.

(** What [strconv.ParseFloat] accepts and rejects. *)
Example ParseFloat_syntax :
  map (fun s => match Float.ParseFloat s with Some _ => true | None => false end)
    ["10"; "+1.5e-3"; ".5"; "5."; "0x1p-2"; "1_000"; "-Infinity"; "NaN";
     ""; "."; "1a"; "1e"; "0x1"; "_1"; "1__0"; "+nan"; "1e400"; " 1"]
  = [true; true; true; true; true; true; true; true;
     false; false; false; false; false; false; false; false; false; false].
Proof. vm_compute. reflexivity. Qed.

(** [TestSetField]: a float cell into an int field, a text that is not a
    number into an int field. *)
Example setField_tests :
  let int_field :=
    {| field_type := {| Name := "N"; Tag := ""; Kind := reflect.Int;
       Defined := None |};
       field_value := CInt 0 |} in
  setField int_field (f64 42) = Ok (set_value int_field (CInt 42))
  /\ setField int_field (CString "42") = Ok (set_value int_field (CInt 42))
  /\ setField int_field (CString "not-a-number") = Ok int_field.
Proof. vm_compute. repeat split. Qed.

(** Two values that compare equal need not be the same, and NaN compares
    equal to every number. *)
Example compareValues_ties :
  compareValues (CString "1") (CString "1.0") = 0
  /\ compareValues (CString "NaN") (CString "1") = 0
  /\ compareValues (CString "NaN") (CString "2") = 0
  /\ compareValues (CString "1") (CString "2") = -1.
Proof. vm_compute. repeat split. Qed.

(** ** Column lettering: proofs *)

Lemma loop_negative index result :
  index < 0 -> columnIndexToLetter_loop index result = result.
Proof.
  intros H. rewrite columnIndexToLetter_loop_equation_1.
  destruct (Z_lt_dec index 0); [reflexivity | lia].
Qed.

Lemma loop_step index result :
  0 <= index ->
  columnIndexToLetter_loop index result
  = columnIndexToLetter_loop (index / 26 - 1)
      (string_of_rune (65 + index mod 26) ++ result)%string.
Proof.
  intros H. rewrite columnIndexToLetter_loop_equation_1.
  destruct (Z_lt_dec index 0); [lia |]. simpl.
  rewrite Z.quot_div_nonneg, Z.rem_mod_nonneg by lia. reflexivity.
Qed.

Lemma string_app_assoc (a b c : string) :
  ((a ++ b) ++ c = a ++ (b ++ c))%string.
Proof. induction a; simpl; [reflexivity | now rewrite IHa]. Qed.

Lemma string_app_empty_r (a : string) : (a ++ "" = a)%string.
Proof. induction a; simpl; [reflexivity | now rewrite IHa]. Qed.

Lemma loop_acc index :
  forall result,
    columnIndexToLetter_loop index result
    = (columnIndexToLetter_loop index "" ++ result)%string.
Proof.
  destruct (Z_lt_dec index 0) as [Hneg | Hpos].
  - intros. now rewrite !loop_negative by assumption.
  - assert (H0 : 0 <= index) by lia. clear Hpos. revert H0.
    pattern index. apply (well_founded_induction (Z.lt_wf 0)).
    intros i IH Hi result.
    rewrite (loop_step i result), (loop_step i "") by assumption.
    destruct (Z_lt_dec (i / 26 - 1) 0) as [Hq | Hq].
    + rewrite !loop_negative by assumption.
      now rewrite string_app_assoc.
    + assert (i / 26 <= i) by (apply Z.div_le_upper_bound; lia).
      rewrite (IH (i / 26 - 1)) by lia.
      rewrite (IH (i / 26 - 1) ltac:(lia) ltac:(lia) (_ ++ "")%string).
      now rewrite !string_app_assoc.
Qed.

Lemma letters_value_from_app s1 : forall acc s2,
  letters_value_from acc (s1 ++ s2)
  = letters_value_from (letters_value_from acc s1) s2.
Proof. induction s1; intros; simpl; [reflexivity | apply IHs1]. Qed.

Lemma all_upper_app s1 s2 :
  all_upper (s1 ++ s2) = all_upper s1 && all_upper s2.
Proof. induction s1; simpl; [reflexivity | now rewrite IHs1, andb_assoc]. Qed.

Lemma letter_digit_rune r :
  0 <= r < 26 ->
  letter_digit (ascii_of_N (Z.to_N (65 + r))) = r + 1.
Proof.
  intros H. unfold letter_digit, byte.
  rewrite N_ascii_embedding by lia. lia.
Qed.

Lemma rune_letter_digit c :
  is_upper c = true ->
  ascii_of_N (Z.to_N (65 + (letter_digit c - 1))) = c.
Proof.
  unfold is_upper, letter_digit, byte. intros H.
  apply andb_true_iff in H. destruct H as [H1 H2].
  apply Z.leb_le in H1, H2.
  replace (Z.to_N _) with (N_of_ascii c) by lia.
  apply ascii_N_embedding.
Qed.

(** What the loop computes, for a non-negative index. *)
Lemma loop_numeral index :
  0 <= index ->
  let s := columnIndexToLetter_loop index "" in
  s <> "" /\ all_upper s = true /\ letters_value s = index + 1.
Proof.
  pattern index. apply (well_founded_induction (Z.lt_wf 0)).
  intros i IH Hi. cbv zeta.
  rewrite loop_step by assumption. rewrite loop_acc.
  pose proof (Z.mod_pos_bound i 26 ltac:(lia)) as Hm.
  pose proof (Z.div_mod i 26 ltac:(lia)) as Hdm.
  assert (Hq0 : 0 <= i / 26) by (apply Z.div_pos; lia).
  unfold letters_value.
  rewrite all_upper_app, letters_value_from_app.
  unfold string_of_rune. cbn [append all_upper letters_value_from].
  unfold is_upper. rewrite letter_digit_rune by lia.
  assert (Hc : (1 <=? i mod 26 + 1) && (i mod 26 + 1 <=? 26) = true)
    by (apply andb_true_iff; split; apply Z.leb_le; lia).
  rewrite Hc. cbn [andb].
  destruct (Z_lt_dec (i / 26 - 1) 0) as [Hq | Hq].
  - rewrite loop_negative by assumption. cbn.
    repeat split; [discriminate | lia].
  - destruct (IH (i / 26 - 1)) as (_ & Hup & Hv); [lia | lia |].
    unfold letters_value in Hv. rewrite Hup, Hv.
    repeat split; [| lia].
    destruct (columnIndexToLetter_loop (i / 26 - 1) ""); discriminate.
Qed.

Lemma string_snoc_ind (P : string -> Prop) :
  P "" ->
  (forall s c, P s -> P (s ++ String c "")%string) ->
  forall s, P s.
Proof.
  intros Hnil Hsnoc s.
  rewrite <- (string_of_list_ascii_of_string s).
  induction (list_ascii_of_string s) as [| c l IH] using rev_ind.
  - exact Hnil.
  - replace (string_of_list_ascii (l ++ [c]))
      with (string_of_list_ascii l ++ String c "")%string.
    + apply Hsnoc, IH.
    + clear. induction l; simpl; [reflexivity | now rewrite IHl].
Qed.

Lemma letters_value_lower s :
  all_upper s = true -> s <> "" -> 1 <= letters_value s.
Proof.
  induction s as [| s c IH] using string_snoc_ind; [congruence |].
  intros Hup _. rewrite all_upper_app in Hup.
  apply andb_true_iff in Hup. destruct Hup as [Hs Hc].
  simpl in Hc. rewrite andb_true_r in Hc.
  unfold is_upper in Hc. apply andb_true_iff in Hc.
  destruct Hc as [Hc1 Hc2]. apply Z.leb_le in Hc1, Hc2.
  unfold letters_value in *. rewrite letters_value_from_app. simpl.
  destruct s as [| c0 s0].
  - simpl. lia.
  - specialize (IH Hs ltac:(discriminate)). lia.
Qed.

(** Every non-empty string of capital letters is the lettering of the index
    one below its numeral value. *)
Lemma loop_onto s :
  all_upper s = true -> s <> "" ->
  columnIndexToLetter_loop (letters_value s - 1) "" = s.
Proof.
  induction s as [| s c IH] using string_snoc_ind; [congruence |].
  intros Hup _. rewrite all_upper_app in Hup.
  apply andb_true_iff in Hup. destruct Hup as [Hs Hc].
  simpl in Hc. rewrite andb_true_r in Hc.
  pose proof Hc as Hc'.
  unfold is_upper in Hc. apply andb_true_iff in Hc.
  destruct Hc as [Hc1 Hc2]. apply Z.leb_le in Hc1, Hc2.
  unfold letters_value. rewrite letters_value_from_app. simpl.
  fold (letters_value s).
  assert (Hv : 0 <= letters_value s).
  { destruct s; [unfold letters_value; simpl; lia |].
    pose proof (letters_value_lower _ Hs ltac:(discriminate)). lia. }
  set (v := letters_value s) in *.
  assert (Hdiv : (v * 26 + letter_digit c - 1) / 26 = v).
  { symmetry. apply Z.div_unique with (r := letter_digit c - 1); lia. }
  assert (Hmod : (v * 26 + letter_digit c - 1) mod 26 = letter_digit c - 1).
  { symmetry. apply Z.mod_unique with (q := v); lia. }
  rewrite loop_step by lia. rewrite loop_acc, Hdiv, Hmod.
  unfold string_of_rune. rewrite rune_letter_digit by assumption.
  cbn [append]. f_equal.
  destruct s as [| c0 s0].
  - unfold v, letters_value. simpl. now rewrite loop_negative by lia.
  - apply IH; [assumption | discriminate].
Qed.

(** C9: [columnIndexToLetter] is a bijection from the non-negative
    integers onto the non-empty strings of capital letters: the letters of
    index [i] are the numeral of [i + 1] in base 26 with digits A = 1 to
    Z = 26 (so 0 is "A", 25 is "Z", 26 is "AA"), distinct indices get
    distinct letters, every non-empty string of capital letters is the
    lettering of some index, and every negative index gives "A". *)
Theorem columnIndexToLetter_bijection :
  (forall i, 0 <= i ->
     columnIndexToLetter i <> "" /\
     all_upper (columnIndexToLetter i) = true /\
     letters_value (columnIndexToLetter i) = i + 1) /\
  (forall i j, 0 <= i -> 0 <= j -> i <> j ->
     columnIndexToLetter i <> columnIndexToLetter j) /\
  (forall s, s <> "" -> all_upper s = true ->
     exists i, 0 <= i /\ columnIndexToLetter i = s) /\
  (forall i, i < 0 -> columnIndexToLetter i = "A") /\
  columnIndexToLetter 0 = "A" /\
  columnIndexToLetter 25 = "Z" /\
  columnIndexToLetter 26 = "AA".
Proof.
  assert (Hnum : forall i, 0 <= i ->
     columnIndexToLetter i <> "" /\
     all_upper (columnIndexToLetter i) = true /\
     letters_value (columnIndexToLetter i) = i + 1).
  { intros i Hi. unfold columnIndexToLetter.
    destruct (Z.ltb_spec i 0); [lia |]. now apply loop_numeral. }
  split; [exact Hnum |]. split; [| split; [| split]].
  - intros i j Hi Hj Hne Heq.
    destruct (Hnum i Hi) as (_ & _ & Vi).
    destruct (Hnum j Hj) as (_ & _ & Vj).
    rewrite Heq in Vi. lia.
  - intros s Hne Hup. exists (letters_value s - 1).
    pose proof (letters_value_lower s Hup Hne).
    split; [lia |]. unfold columnIndexToLetter.
    destruct (Z.ltb_spec (letters_value s - 1) 0); [lia |].
    now apply loop_onto.
  - intros i Hi. unfold columnIndexToLetter.
    destruct (Z.ltb_spec i 0); [reflexivity | lia].
  - repeat split; vm_compute; reflexivity.
Qed.

Lemma columnIndexToLetter_bijection_witness :
  letters_value (columnIndexToLetter 701) = 702
  /\ columnIndexToLetter 26 <> columnIndexToLetter 27
  /\ (exists i, 0 <= i /\ columnIndexToLetter i = "QUIRE")
  /\ columnIndexToLetter (-5) = "A".
Proof.
  destruct columnIndexToLetter_bijection as (Hnum & Hinj & Honto & Hneg & _).
  split; [apply (Hnum 701); discriminate |].
  split; [apply Hinj; discriminate |].
  split; [apply Honto; [discriminate | reflexivity] |].
  apply Hneg. reflexivity.
Defined.

(** ** The query pipeline *)

Lemma len_nonneg {A : Type} (l : list A) : 0 <= len l.
Proof. unfold len. lia. Qed.

Lemma len_firstn {A : Type} (n : Z) (l : list A) :
  0 <= n -> len (firstn (Z.to_nat n) l) = Z.min n (len l).
Proof. intros H. unfold len. rewrite length_firstn. lia. Qed.

(** C7: [applyLimit] keeps the first [n] rows when [n > 0] (all of them
    when there are fewer), so that the result has [min(len(rows), n)] rows;
    it returns the rows unchanged when [n <= 0]; it never adds a row; and
    applying it twice is applying it once. *)
Theorem applyLimit_spec {S : Type} (q : Query S) (rows : Grid) :
  (0 < limit q ->
     applyLimit q rows = firstn (Z.to_nat (limit q)) rows /\
     len (applyLimit q rows) = Z.min (len rows) (limit q)) /\
  (limit q <= 0 -> applyLimit q rows = rows) /\
  len (applyLimit q rows) <= len rows /\
  applyLimit q (applyLimit q rows) = applyLimit q rows.
Proof.
  unfold applyLimit.
  destruct (Z.ltb_spec 0 (limit q)) as [Hpos | Hnp]; cbn [andb].
  - destruct (Z.ltb_spec (limit q) (len rows)) as [Hlt | Hge].
    + rewrite len_firstn by lia.
      destruct (Z.ltb_spec (limit q) (Z.min (limit q) (len rows))); [lia |].
      repeat split; intros; try reflexivity; lia.
    + destruct (Z.ltb_spec (limit q) (len rows)); [lia |].
      repeat split; intros; try reflexivity; try lia.
      symmetry. apply firstn_all2. unfold len in Hge. lia.
  - repeat split; intros; try reflexivity; lia.
Qed.

Lemma applyLimit_spec_witness :
  applyLimit (Limit (NewQuery (mock_table people)) 2) people
  = firstn 2 people
  /\ len (applyLimit (Limit (NewQuery (mock_table people)) 2) people) = 2
  /\ applyLimit (Limit (NewQuery (mock_table people)) (-1)) people = people.
Proof.
  destruct (applyLimit_spec (Limit (NewQuery (mock_table people)) 2) people)
    as [Hpos _].
  destruct (Hpos ltac:(reflexivity)) as [Hfirst Hlen].
  destruct (applyLimit_spec (Limit (NewQuery (mock_table people)) (-1)) people)
    as (_ & Hall & _).
  split; [exact Hfirst |].
  split; [exact Hlen | apply Hall; discriminate].
Defined.

(** C6: the sort step is a no-op.  [applySort] returns its rows, and
    giving a query an [OrderBy], with any column and direction, changes
    nothing of what [Get] does: same result, same destination, same calls
    as the query without it. *)
Theorem Get_OrderBy_noop {S : Type} (q : Query S) (column : string)
  (desc : bool) (dest : GoValue) (w : World S) :
  (forall rows headers, applySort q rows headers = rows) /\
  Get (OrderBy q column desc) dest w = Get q dest w.
Proof.
  split; [reflexivity |].
  unfold Get, bind. cbn [OrderBy table filters limit orderBy].
  destruct (client_Read _ _ w) as [[data | e | p] w']; try reflexivity.
  destruct (len data <? 2); [reflexivity |].
  destruct data as [| headers rows]; [reflexivity |].
  unfold applySort.
  destruct (negb (column =? "")%string), (negb (orderBy q =? "")%string);
    reflexivity.
Qed.

(** C8: when the grid read has fewer than two rows, [Get] returns no error
    and leaves the destination as it was, [UpdateWhere] and [DeleteWhere]
    return no error, and the read is the only call the client receives. *)
Theorem short_grid_no_effects {S : Type} (t : Table S) (w : World S)
  (data : Grid) (s' : S) :
  Read (client (db t)) (name t) (client_state w) = (Ok data, s') ->
  len data < 2 ->
  let w' := after w (ReadCall (name t)) s' in
  (forall q dest, table q = t -> Get q dest w = (Ok dest, w')) /\
  (forall column operator value record,
     UpdateWhere t column operator value record w = (Ok tt, w')) /\
  (forall column operator value,
     DeleteWhere t column operator value w = (Ok tt, w')).
Proof.
  intros Hread Hlen w'.
  assert (Hlt : (len data <? 2) = true) by (apply Z.ltb_lt; assumption).
  repeat split; intros.
  - subst t. unfold Get, bind, client_Read, call.
    rewrite Hread, Hlt. reflexivity.
  - unfold UpdateWhere, bind, client_Read, call.
    rewrite Hread, Hlt. reflexivity.
  - unfold DeleteWhere, bind, client_Read, call.
    rewrite Hread, Hlt. reflexivity.
Qed.

Lemma short_grid_no_effects_witness :
  let t := mock_table [map CString ["ID"; "Name"; "Email"; "Age"]] in
  let w' := after start (ReadCall "Users") tt in
  Get (Where (NewQuery t) "Age" ">=" (CInt 18)) (GPtr (GSlice (TStruct TestUser) []))
    start = (Ok (GPtr (GSlice (TStruct TestUser) [])), w')
  /\ UpdateWhere t "Age" ">=" (CInt 18) (GStruct (user 1 "A" "a" 1)) start
     = (Ok tt, w')
  /\ DeleteWhere t "Age" ">=" (CInt 18) start = (Ok tt, w').
Proof.
  cbv zeta.
  destruct (short_grid_no_effects
              (mock_table [map CString ["ID"; "Name"; "Email"; "Age"]])
              start [map CString ["ID"; "Name"; "Email"; "Age"]] tt
              eq_refl ltac:(reflexivity)) as (HGet & HUpd & HDel).
  split; [apply HGet; reflexivity |].
  split; [apply HUpd | apply HDel].
Defined.

(** ** The table facade *)

Lemma wrap_small (z : Z) :
  GoInt.min_int <= z <= GoInt.max_int -> GoInt.wrap z = z.
Proof.
  unfold GoInt.min_int, GoInt.max_int, GoInt.wrap, GoInt.wrap_signed.
  intros H. rewrite Z.mod_small by lia. lia.
Qed.

Lemma call_eq {S A : Type} (c : Call) (f : S -> A * S) (w : World S) :
  call c f w = (fst (f (client_state w)), after w c (snd (f (client_state w)))).
Proof. unfold call, after. destruct (f (client_state w)); reflexivity. Qed.

Lemma columnIndexToLetter_value (i : Z) :
  0 <= i -> letters_value (columnIndexToLetter i) = i + 1.
Proof.
  intros Hi. unfold columnIndexToLetter.
  destruct (Z.ltb_spec i 0); [lia |]. now apply loop_numeral.
Qed.

(** C5: [Update] and [Delete] reject a negative index with the error
    "row index cannot be negative" and call nothing.  Otherwise [Update]
    issues the single call [Write] on the range
    [name!A{row}:{letter}{row}], where [row] is [rowIndex + 2] (as an
    [int]; the sum itself when it does not overflow) and [letter] is the
    letter of the last of the encoded fields, and [Delete] issues the single
    call [DeleteRows] with the one index [rowIndex + 1]. *)
Theorem Update_Delete_offsets {S : Type} (t : Table S) (w : World S) :
  (forall rowIndex record,
     rowIndex < 0 ->
     Update t rowIndex record w = (Err "row index cannot be negative", w)) /\
  (forall rowIndex record values,
     0 <= rowIndex ->
     structToValues record = Ok values ->
     let actualRow := GoInt.add rowIndex 2 in
     let endCol := columnIndexToLetter (len values - 1) in
     let range_ :=
       (name t ++ "!A" ++ FormatInt actualRow ++ ":" ++ endCol
        ++ FormatInt actualRow)%string in
     let answer := Write (client (db t)) range_ [values] (client_state w) in
     Update t rowIndex record w
     = (fst answer, after w (WriteCall range_ [values]) (snd answer)) /\
     (rowIndex <= GoInt.max_int - 2 -> actualRow = rowIndex + 2) /\
     (1 <= len values -> letters_value endCol = len values)) /\
  (forall rowIndex,
     rowIndex < 0 ->
     Delete t rowIndex w = (Err "row index cannot be negative", w)) /\
  (forall rowIndex,
     0 <= rowIndex ->
     let actualRow := GoInt.add rowIndex 1 in
     let answer :=
       DeleteRows (client (db t)) (name t) [actualRow] (client_state w) in
     Delete t rowIndex w
     = (fst answer, after w (DeleteRowsCall (name t) [actualRow]) (snd answer)) /\
     (rowIndex <= GoInt.max_int - 1 -> actualRow = rowIndex + 1)).
Proof.
  split; [| split; [| split]].
  - intros rowIndex record Hneg. unfold Update.
    destruct (Z.ltb_spec rowIndex 0); [reflexivity | lia].
  - intros rowIndex record values Hpos Hvalues. cbv zeta. unfold Update.
    destruct (Z.ltb_spec rowIndex 0); [lia |].
    rewrite Hvalues. unfold client_Write, row_range. rewrite call_eq.
    split; [reflexivity |]. split.
    + intros Hmax. unfold GoInt.add. apply wrap_small.
      unfold GoInt.min_int, GoInt.max_int in *. lia.
    + intros Hlen. rewrite columnIndexToLetter_value by lia. lia.
  - intros rowIndex Hneg. unfold Delete.
    destruct (Z.ltb_spec rowIndex 0); [reflexivity | lia].
  - intros rowIndex Hpos. cbv zeta. unfold Delete.
    destruct (Z.ltb_spec rowIndex 0); [lia |].
    unfold client_DeleteRows. rewrite call_eq.
    split; [reflexivity |].
    intros Hmax. unfold GoInt.add. apply wrap_small.
    unfold GoInt.min_int, GoInt.max_int in *. lia.
Qed.

Lemma Update_Delete_offsets_witness :
  Update (mock_table people) (-1) (person 1 "Al" 31) start
  = (Err "row index cannot be negative", start)
  /\ Update (mock_table people) 0 (person 1 "Al" 31) start
     = (Ok tt,
        after start
          (WriteCall "Users!A2:C2" [[CInt 1; CString "Al"; CInt 31]]) tt)
  /\ Delete (mock_table people) (-1) start
     = (Err "row index cannot be negative", start)
  /\ Delete (mock_table people) 0 start
     = (Ok tt, after start (DeleteRowsCall "Users" [1]) tt).
Proof.
  destruct (Update_Delete_offsets (mock_table people) start)
    as (HUneg & HU & HDneg & HD).
  split; [apply HUneg; reflexivity |].
  split.
  { destruct (HU 0 (person 1 "Al" 31) [CInt 1; CString "Al"; CInt 31]
                ltac:(discriminate) eq_refl) as [H _].
    exact H. }
  split; [apply HDneg; reflexivity |].
  destruct (HD 0 ltac:(discriminate)) as [H _]. exact H.
Defined.

(** *** [DeleteWhere] *)

Lemma filter_map_S (f : nat -> bool) (l : list nat) :
  List.filter f (map S l) = map S (List.filter (fun i => f (S i)) l).
Proof.
  induction l as [| x l IH]; [reflexivity |]. cbn.
  destruct (f (S x)); cbn; now rewrite IH.
Qed.

Lemma matching_positions_cons row rows headers filter :
  matching_positions (row :: rows) headers filter
  = (if matchesFilter row headers filter then [0] else [])
    ++ map (fun p => p + 1) (matching_positions rows headers filter).
Proof.
  unfold matching_positions. cbn [List.length seq List.filter nth_error].
  rewrite <- seq_shift, filter_map_S. cbn [nth_error].
  destruct (matchesFilter row headers filter); cbn [map app];
    rewrite !map_map; [f_equal |]; apply map_ext; intros; lia.
Qed.

Lemma DeleteWhere_indices_positions rows headers filter :
  forall i,
    DeleteWhere_indices rows headers filter i
    = map (fun p => p + i + 1) (matching_positions rows headers filter).
Proof.
  induction rows as [| row rows IH]; intros i; [reflexivity |].
  rewrite matching_positions_cons. cbn [DeleteWhere_indices].
  rewrite IH, map_app, map_map.
  destruct (matchesFilter row headers filter); cbn [map app];
    [f_equal |]; apply map_ext; intros; lia.
Qed.

Lemma UpdateWhere_indices_positions rows headers filter :
  forall i,
    UpdateWhere_indices rows headers filter i
    = map (fun p => p + i) (matching_positions rows headers filter).
Proof.
  induction rows as [| row rows IH]; intros i; [reflexivity |].
  rewrite matching_positions_cons. cbn [UpdateWhere_indices].
  rewrite IH, map_app, map_map.
  destruct (matchesFilter row headers filter); cbn [map app];
    [f_equal |]; apply map_ext; intros; lia.
Qed.

Lemma matching_positions_nonneg rows headers filter :
  Forall (fun p => 0 <= p) (matching_positions rows headers filter).
Proof.
  unfold matching_positions. apply Forall_forall. intros p Hp.
  apply in_map_iff in Hp. destruct Hp as (n & <- & _). lia.
Qed.

Lemma StronglySorted_map_add (k : Z) (l : list Z) :
  StronglySorted Z.lt l -> StronglySorted Z.lt (map (fun p => p + k) l).
Proof.
  induction 1 as [| x l Hs IH Hx]; cbn; constructor; [assumption |].
  apply Forall_map. revert Hx. apply Forall_impl. intros; lia.
Qed.

Lemma matching_positions_ascending rows headers filter :
  StronglySorted Z.lt (matching_positions rows headers filter).
Proof.
  induction rows as [| row rows IH]; [constructor |].
  rewrite matching_positions_cons.
  pose proof (StronglySorted_map_add 1 _ IH) as Hs.
  destruct (matchesFilter row headers filter); cbn [app]; [| exact Hs].
  constructor; [exact Hs |].
  apply Forall_map.
  pose proof (matching_positions_nonneg rows headers filter) as Hn.
  revert Hn. apply Forall_impl. intros; lia.
Qed.

(** Sorting a strictly increasing list in non-increasing order reverses
    it. *)
Lemma insert_desc_below (x : Z) (l : list Z) :
  Forall (fun y => x < y) l -> insert_desc x l = l ++ [x].
Proof.
  induction 1 as [| y l Hy Hl IH]; [reflexivity |].
  cbn. destruct (Z.ltb_spec y x); [lia |]. now rewrite IH.
Qed.

Lemma sort_ascending (l : list Z) :
  StronglySorted Z.lt l -> sort_Reverse_IntSlice l = rev l.
Proof.
  induction 1 as [| x l Hs IH Hx]; [reflexivity |].
  cbn. rewrite IH. apply insert_desc_below.
  apply Forall_forall. intros y Hy. apply in_rev in Hy.
  rewrite Forall_forall in Hx. now apply Hx.
Qed.

Lemma StronglySorted_snoc (R : Z -> Z -> Prop) (l : list Z) (x : Z) :
  StronglySorted R l -> Forall (fun y => R y x) l ->
  StronglySorted R (l ++ [x]).
Proof.
  induction 1 as [| y l Hs IH Hy]; intros Hall; cbn.
  - repeat constructor.
  - inversion Hall; subst. constructor; [now apply IH |].
    apply Forall_app. split; [assumption | now constructor].
Qed.

Lemma rev_ascending (l : list Z) :
  StronglySorted Z.lt l -> StronglySorted Z.gt (rev l).
Proof.
  induction 1 as [| x l Hs IH Hx]; [constructor |].
  cbn. apply StronglySorted_snoc; [assumption |].
  apply Forall_forall. intros y Hy. apply in_rev in Hy.
  rewrite Forall_forall in Hx. specialize (Hx y Hy). lia.
Qed.

(** The sort is a sort: a permutation of its argument in non-increasing
    order. *)
Lemma insert_desc_perm (x : Z) (l : list Z) :
  Permutation (x :: l) (insert_desc x l).
Proof.
  induction l as [| y l IH]; [reflexivity |].
  cbn. destruct (y <? x); [reflexivity |].
  rewrite perm_swap. now constructor.
Qed.

Lemma sort_Reverse_IntSlice_perm (l : list Z) :
  Permutation l (sort_Reverse_IntSlice l).
Proof.
  induction l as [| x l IH]; [constructor |].
  cbn. rewrite <- insert_desc_perm. now constructor.
Qed.

Lemma insert_desc_sorted (x : Z) (l : list Z) :
  StronglySorted Z.ge l -> StronglySorted Z.ge (insert_desc x l).
Proof.
  induction 1 as [| y l Hs IH Hy]; cbn.
  - repeat constructor.
  - destruct (Z.ltb_spec y x).
    + constructor; [now constructor |].
      constructor; [lia |]. revert Hy. apply Forall_impl. intros; lia.
    + constructor; [assumption |].
      rewrite <- insert_desc_perm. constructor; [lia | assumption].
Qed.

Lemma sort_Reverse_IntSlice_sorted (l : list Z) :
  StronglySorted Z.ge (sort_Reverse_IntSlice l).
Proof.
  induction l as [| x l IH]; [constructor |].
  cbn. now apply insert_desc_sorted.
Qed.

(** C4: [DeleteWhere] on a grid that was read.  With [positions] the
    0-based positions of the data rows that match the filter, in increasing
    order: when there is none (in particular when the grid has fewer than
    two rows) the read is the only call and the result is success; when
    there is one or more, the read is followed by exactly one call of
    [DeleteRows], whose indices are the positions plus one in strictly
    descending order, and the result is the answer of that call. *)
Theorem DeleteWhere_spec {S : Type} (t : Table S) (w : World S)
  (column operator : string) (value : Cell) (data : Grid) (s' : S) :
  Read (client (db t)) (name t) (client_state w) = (Ok data, s') ->
  let w' := after w (ReadCall (name t)) s' in
  let filter :=
    {| Column := column; Operator := operator; Value := value |} in
  let positions := matching_positions (tl data) (hd [] data) filter in
  let indices := rev (map (fun p => p + 1) positions) in
  let answer := DeleteRows (client (db t)) (name t) indices s' in
  (len data < 2 -> positions = []) /\
  (positions = [] -> DeleteWhere t column operator value w = (Ok tt, w')) /\
  (positions <> [] ->
     DeleteWhere t column operator value w
     = (fst answer, after w' (DeleteRowsCall (name t) indices) (snd answer)) /\
     StronglySorted Z.gt indices /\
     (forall i, In i indices <-> In (i - 1) positions)).
Proof.
  intros Hread w' filter positions indices answer.
  split; [| split].
  - intros Hlen. subst positions.
    destruct data as [| headers [| row rows]]; try reflexivity.
    unfold len in Hlen. cbn in Hlen. lia.
  - intros Hnil. unfold DeleteWhere, bind, client_Read.
    rewrite call_eq, Hread. cbn [fst snd].
    destruct (len data <? 2); [reflexivity |].
    destruct data as [| headers rows]; [reflexivity |].
    rewrite DeleteWhere_indices_positions.
    cbn [tl hd] in positions. fold filter. fold positions.
    rewrite Hnil. reflexivity.
  - intros Hne.
    assert (Hrows : exists headers rows, data = headers :: rows /\ rows <> []).
    { destruct data as [| headers [| row rows]];
        try (exfalso; apply Hne; reflexivity).
      exists headers, (row :: rows). split; [reflexivity | discriminate]. }
    destruct Hrows as (headers & rows & -> & Hrows).
    cbn [tl hd] in positions.
    pose proof (matching_positions_ascending rows headers filter) as Hasc.
    fold positions in Hasc.
    assert (Hasc1 : StronglySorted Z.lt (map (fun p => p + 1) positions))
      by now apply StronglySorted_map_add.
    split; [| split].
    + unfold DeleteWhere, bind, client_Read.
      rewrite call_eq, Hread. cbn [fst snd].
      assert (Hlen : (len (headers :: rows) <? 2) = false).
      { apply Z.ltb_ge. destruct rows; [congruence |].
        unfold len. cbn [List.length]. lia. }
      rewrite Hlen, DeleteWhere_indices_positions.
      fold filter. fold positions.
      replace (map (fun p => p + 0 + 1) positions)
        with (map (fun p => p + 1) positions)
        by (apply map_ext; intros; lia).
      assert (Hl : (len (map (fun p => p + 1) positions) =? 0) = false).
      { apply Z.eqb_neq. destruct positions; [congruence |].
        unfold len. cbn [map List.length]. lia. }
      rewrite Hl, sort_ascending by assumption.
      fold indices. unfold client_DeleteRows. rewrite call_eq.
      reflexivity.
    + now apply rev_ascending.
    + intros i. unfold indices. rewrite <- in_rev, in_map_iff. split.
      * intros (p & <- & Hp). now replace (p + 1 - 1) with p by lia.
      * intros Hi. exists (i - 1). split; [lia | assumption].
Qed.

Lemma DeleteWhere_spec_witness :
  let data :=
    [ map CString ["ID"; "Name"; "Status"];
      [f64 1; CString "Alice"; CString "deleted"];
      [f64 2; CString "Bob"; CString "active"];
      [f64 3; CString "Charlie"; CString "deleted"] ] in
  DeleteWhere (mock_table data) "Status" "=" (CString "deleted") start
  = (Ok tt,
     after (after start (ReadCall "Users") tt)
       (DeleteRowsCall "Users" [3; 1]) tt)
  /\ StronglySorted Z.gt [3; 1]
  /\ DeleteWhere (mock_table data) "Status" "=" (CString "gone") start
     = (Ok tt, after start (ReadCall "Users") tt).
Proof.
  cbv zeta.
  match goal with
  | |- DeleteWhere (mock_table ?d) _ _ _ _ = _ /\ _ =>
      pose proof (DeleteWhere_spec (mock_table d) start "Status" "="
                    (CString "deleted") d tt eq_refl) as H1;
      pose proof (DeleteWhere_spec (mock_table d) start "Status" "="
                    (CString "gone") d tt eq_refl) as H2
  end.
  cbv zeta in H1, H2.
  destruct H1 as (_ & _ & H1). destruct H2 as (_ & H2 & _).
  destruct (H1 ltac:(vm_compute; discriminate)) as (Hcall & Hsorted & _).
  split; [exact Hcall |].
  split; [exact Hsorted |].
  apply H2. vm_compute. reflexivity.
Defined.

(** ** Column lookup in the header *)

Lemma interface_eq_string_iff (h : Cell) (name : string) :
  interface_eq_string h name = true <-> h = CString name.
Proof.
  destruct h; cbn; try (split; [discriminate | intros H; discriminate H]).
  rewrite String.eqb_eq. split; [now intros -> | now intros [= ->]].
Qed.

Lemma find_column_none (headers : list Cell) (col : string) :
  (forall h, In h headers -> h <> CString col) ->
  forall i, find_column headers col i = -1.
Proof.
  induction headers as [| h headers IH]; intros Hno i; [reflexivity |].
  cbn. destruct (interface_eq_string h col) eqn:E.
  - apply interface_eq_string_iff in E. exfalso.
    apply (Hno h); [now left | assumption].
  - apply IH. intros h' Hin. apply Hno. now right.
Qed.

Lemma find_column_range (headers : list Cell) (col : string) :
  forall i,
    find_column headers col i = -1 \/
    i <= find_column headers col i < i + len headers.
Proof.
  induction headers as [| h headers IH]; intros i; [now left |].
  cbn [find_column]. unfold len. cbn [List.length].
  destruct (interface_eq_string h col).
  - right. lia.
  - destruct (IH (i + 1)) as [-> | H]; [now left |].
    right. unfold len in H. lia.
Qed.

Lemma elem_at_in_range {A : Type} (l : list A) (i : Z) :
  0 <= i < len l -> exists x, elem_at l i = Some x.
Proof.
  intros H. unfold elem_at, len in *.
  destruct (Z.ltb_spec i 0); [lia |].
  destruct (nth_error l (Z.to_nat i)) eqn:E; [now eexists |].
  apply nth_error_None in E. lia.
Qed.

Lemma setField_ok (field : Field) (value : Cell) :
  exists field', setField field value = Ok field'
                 /\ field_type field' = field_type field.
Proof.
  unfold setField. destruct (negb (CanSet field)); [now eexists |].
  destruct (Kind (field_type field));
    repeat match goal with
           | |- context [match ?x with Some _ => _ | None => _ end] =>
               destruct x
           end;
    eexists; split; reflexivity.
Qed.

Lemma scan_field_ok (row headers : list Cell) (field : Field) :
  exists field', scan_field row headers field = Ok field'
                 /\ field_type field' = field_type field.
Proof.
  unfold scan_field.
  destruct (Tag (field_type field) =? "-")%string; [now eexists |].
  set (colIdx := find_column headers _ 0).
  destruct (Z.eqb_spec colIdx (-1)) as [E | Hne]; cbn [orb]; [now eexists |].
  destruct (Z.leb_spec (len row) colIdx); [now eexists |].
  destruct (find_column_range headers
              (column_name (field_type field)) 0) as [E | Hr];
    [now fold colIdx in E |].
  fold colIdx in Hr.
  destruct (elem_at_in_range row colIdx ltac:(lia)) as [cell ->].
  destruct (setField_ok field cell) as (field' & -> & Ht).
  now exists field'.
Qed.

Lemma scan_field_absent (row headers : list Cell) (field : Field) :
  (forall h, In h headers -> h <> CString (column_name (field_type field))) ->
  scan_field row headers field = Ok field.
Proof.
  intros Hno. unfold scan_field.
  destruct (Tag (field_type field) =? "-")%string; [reflexivity |].
  now rewrite find_column_none.
Qed.

Lemma scan_fields_ok (row headers : list Cell) (s : Struct) :
  exists s', scan_fields row headers s = Ok s'
             /\ map field_type s' = map field_type s.
Proof.
  induction s as [| field s (s' & IH & IHt)]; [now exists [] |].
  cbn. destruct (scan_field_ok row headers field) as (field' & -> & Ht).
  rewrite IH. exists (field' :: s'). cbn. now rewrite Ht, IHt.
Qed.

Lemma scan_fields_absent (row headers : list Cell) (col : string) :
  (forall h, In h headers -> h <> CString col) ->
  forall s s',
    scan_fields row headers s = Ok s' ->
    forall i field,
      nth_error s i = Some field ->
      column_name (field_type field) = col ->
      nth_error s' i = Some field.
Proof.
  intros Hno. induction s as [| f s IH]; intros s' Hs i field Hi Hcol.
  - destruct i; discriminate.
  - cbn in Hs.
    destruct (scan_field_ok row headers f) as (f' & Hf & _).
    rewrite Hf in Hs.
    destruct (scan_fields_ok row headers s) as (s0 & Hs0 & _).
    rewrite Hs0 in Hs. injection Hs as <-.
    destruct i as [| i]; cbn in *.
    + injection Hi as ->. rewrite scan_field_absent in Hf by now subst col.
      now injection Hf as <-.
    + now apply (IH s0 Hs0 i field).
Qed.

(** C10: the lookup of a column name in the header, in [matchesFilter],
    [matchesFilters] and [scanRow], matches a header cell only when the
    cell holds the string that is the column name.  So when every header
    cell that reads as the name holds a value that is not a string (a
    number, a boolean), the lookup finds nothing, a filter on that name is
    false for every row, no row survives a query with such a filter, and
    the decoding of any row succeeds and leaves a field bound to that name
    at its zero value. *)
Theorem header_lookup_strings_only :
  (forall h name, interface_eq_string h name = true <-> h = CString name) /\
  (forall h name, (forall s, h <> CString s) ->
     interface_eq_string h name = false) /\
  (forall headers col,
     (forall h, In h headers -> fmtV h = col -> forall s, h <> CString s) ->
     find_column headers col 0 = -1 /\
     (forall row filter,
        Column filter = col -> matchesFilter row headers filter = false) /\
     (forall (S : Type) (q : Query S) row,
        (exists f, In f (filters q) /\ Column f = col) ->
        matchesFilters q row headers = false) /\
     (forall (S : Type) (q : Query S) rows,
        (exists f, In f (filters q) /\ Column f = col) ->
        applyFilters q rows headers = []) /\
     (forall row fields,
        exists s',
          scanRow row headers (zero_value (TStruct fields)) = Ok s' /\
          forall i ft,
            nth_error fields i = Some ft ->
            column_name ft = col ->
            nth_error s' i
            = Some {| field_type := ft; field_value := zero (Kind ft) |})).
Proof.
  split; [exact interface_eq_string_iff |].
  split.
  { intros h name Hns. destruct h; try reflexivity.
    exfalso. now apply (Hns s). }
  intros headers col Hcol.
  assert (Hno : forall h, In h headers -> h <> CString col).
  { intros h Hin ->. now apply (Hcol (CString col) Hin eq_refl col). }
  assert (Hfilters : forall fs row,
             (exists f, In f fs /\ Column f = col) ->
             matchesFilters_loop fs row headers = false).
  { induction fs as [| f fs IH]; intros row (f0 & Hin & Hc).
    - destruct Hin.
    - cbn [matchesFilters_loop].
      destruct Hin as [-> | Hin].
      + rewrite Hc, find_column_none by assumption. reflexivity.
      + destruct (_ || _); [reflexivity |].
        destruct (elem_at row _); [| reflexivity].
        destruct (negb _); [reflexivity |].
        apply IH. now exists f0. }
  split; [now apply find_column_none |].
  split; [| split; [| split]].
  - intros row filter Hc. unfold matchesFilter.
    rewrite Hc, find_column_none by assumption. reflexivity.
  - intros S q row Hex. now apply Hfilters.
  - intros S q rows Hex. unfold applyFilters.
    destruct (Z.eqb_spec (len (filters q)) 0) as [E | _].
    + destruct Hex as (f & Hin & _).
      destruct (filters q); [destruct Hin | discriminate E].
    + induction rows as [| row rows IH]; [reflexivity |].
      cbn. unfold matchesFilters at 1. now rewrite Hfilters.
  - intros row fields. cbn [zero_value scanRow].
    destruct (scan_fields_ok row headers
                (map (fun ft => {| field_type := ft;
                                   field_value := zero (Kind ft) |}) fields))
      as (s' & Hs & _).
    exists s'. split; [exact Hs |].
    intros i ft Hi Hc.
    apply (scan_fields_absent row headers col Hno _ s' Hs i).
    + rewrite nth_error_map, Hi. reflexivity.
    + exact Hc.
Qed.

Lemma header_lookup_strings_only_witness :
  let headers := [f64 1; CString "Name"] in
  find_column headers "1" 0 = -1
  /\ matchesFilter [CString "x"; CString "Alice"] headers
       {| Column := "1"; Operator := "="; Value := CString "x" |} = false.
Proof.
  cbv zeta.
  destruct header_lookup_strings_only as (_ & _ & H).
  destruct (H [f64 1; CString "Name"] "1") as (Hfind & Hfilter & _).
  - intros h [<- | [<- | []]] Hf s.
    + discriminate.
    + vm_compute in Hf. discriminate Hf.
  - split; [exact Hfind | now apply Hfilter].
Defined.

(** ** Coercion into a boolean field *)

Lemma ParseBool_spec (str : string) :
  (In str true_spellings -> ParseBool str = Some true) /\
  (In str false_spellings -> ParseBool str = Some false) /\
  (~ In str (true_spellings ++ false_spellings) -> ParseBool str = None).
Proof.
  split; [| split].
  - intros H. cbn in H.
    repeat (destruct H as [<- | H]; [reflexivity |]). destruct H.
  - intros H. cbn in H.
    repeat (destruct H as [<- | H]; [reflexivity |]). destruct H.
  - intros Hno.
    change (ParseBool str) with
      (if existsb (String.eqb str) true_spellings then Some true
       else if existsb (String.eqb str) false_spellings then Some false
       else None).
    destruct (existsb (String.eqb str) true_spellings) eqn:Et.
    + apply existsb_exists in Et. destruct Et as (x & Hin & Heq).
      apply String.eqb_eq in Heq. subst x. exfalso. apply Hno.
      apply in_or_app. now left.
    + destruct (existsb (String.eqb str) false_spellings) eqn:Ef;
        [| reflexivity].
      apply existsb_exists in Ef. destruct Ef as (x & Hin & Heq).
      apply String.eqb_eq in Heq. subst x. exfalso. apply Hno.
      apply in_or_app. now right.
Qed.

(** X18: what [setField] does on a settable field of kind bool: it parses the
    text of the cell with [strconv.ParseBool].  The six
    spellings 1, t, T, TRUE, true, True set the field to true and the six
    spellings 0, f, F, FALSE, false, False set it to false; on any other
    text, other casings included, the field is left as it was.  No error is
    returned in any case. *)
Theorem setField_bool (field : Field) (value : Cell) :
  Kind (field_type field) = reflect.Bool ->
  CanSet field = true ->
  (In (fmtV value) true_spellings ->
     setField field value = Ok (set_value field (CBool true))) /\
  (In (fmtV value) false_spellings ->
     setField field value = Ok (set_value field (CBool false))) /\
  (~ In (fmtV value) (true_spellings ++ false_spellings) ->
     setField field value = Ok field) /\
  (exists field', setField field value = Ok field').
Proof.
  intros Hkind Hset.
  destruct (ParseBool_spec (fmtV value)) as (Ht & Hf & Hn).
  unfold setField. rewrite Hset, Hkind. cbn [negb].
  repeat split.
  - intros H. now rewrite (Ht H).
  - intros H. now rewrite (Hf H).
  - intros H. now rewrite (Hn H).
  - destruct (ParseBool (fmtV value)); now eexists.
Qed.

Lemma setField_bool_witness :
  setField Active (CString "TRUE") = Ok (set_value Active (CBool true))
  /\ setField Active (CInt 0) = Ok (set_value Active (CBool false))
  /\ setField Active (CString "yes") = Ok Active.
Proof.
  destruct (setField_bool Active (CString "TRUE") eq_refl eq_refl)
    as (Ht & _).
  destruct (setField_bool Active (CInt 0) eq_refl eq_refl)
    as (_ & Hf & _).
  destruct (setField_bool Active (CString "yes") eq_refl eq_refl)
    as (_ & _ & Hn & _).
  split; [apply Ht; cbn; tauto |].
  split; [apply Hf; cbn; tauto |].
  apply Hn. cbn. intros H.
  repeat (destruct H as [H | H]; [discriminate H |]). exact H.
Defined.

(** C2: the casing [tRuE] of "true" is not accepted, although the
    repository documents the parsing of booleans as case-insensitive: the
    field stays false, and no error is returned. *)
Lemma setField_bool_mixed_case :
  ParseBool "tRuE" = None
  /\ setField Active (CString "tRuE") = Ok Active
  /\ field_value Active = CBool false.
Proof. repeat split. Qed.

(** ** [compareValues] *)

(** *** The order of strings *)

Lemma ascii_compare_N (a b : ascii) :
  Ascii.compare a b = (N_of_ascii a ?= N_of_ascii b)%N.
Proof. reflexivity. Qed.

Lemma string_compare_refl (a : string) : String.compare a a = Eq.
Proof.
  induction a as [| c a IH]; [reflexivity |].
  cbn. rewrite ascii_compare_N, N.compare_refl. exact IH.
Qed.

Lemma string_compare_lt_trans (a : string) :
  forall b c,
    String.compare a b = Lt -> String.compare b c = Lt ->
    String.compare a c = Lt.
Proof.
  induction a as [| x a IH]; intros [| y b] [| z c]; cbn;
    try discriminate; try reflexivity.
  rewrite !ascii_compare_N.
  destruct (N.compare_spec (N_of_ascii x) (N_of_ascii y)) as [Exy | Lxy | Gxy];
    try discriminate;
    destruct (N.compare_spec (N_of_ascii y) (N_of_ascii z)) as [Eyz | Lyz | Gyz];
    try discriminate; intros Hab Hbc.
  - rewrite Exy, Eyz, N.compare_refl. now apply (IH b c).
  - rewrite Exy. now apply N.compare_lt_iff in Lyz; rewrite Lyz.
  - rewrite <- Eyz. now apply N.compare_lt_iff in Lxy; rewrite Lxy.
  - assert (H : (N_of_ascii x < N_of_ascii z)%N) by lia.
    now apply N.compare_lt_iff in H; rewrite H.
Qed.

Lemma string_compare_le_trans (a b c : string) :
  String.compare a b <> Gt -> String.compare b c <> Gt ->
  String.compare a c <> Gt.
Proof.
  intros Hab Hbc.
  destruct (String.compare a b) eqn:Eab; [| | congruence].
  - apply String.compare_eq_iff in Eab. now subst b.
  - destruct (String.compare b c) eqn:Ebc; [| | congruence].
    + apply String.compare_eq_iff in Ebc. subst c. now rewrite Eab.
    + now rewrite (string_compare_lt_trans a b c Eab Ebc).
Qed.

(** The fallback branch of [compareValues] is the sign of the string
    comparison. *)
Lemma string_branch (a b : string) :
  (if string_lt a b then -1 else if string_lt b a then 1 else 0)
  = sign_of (String.compare a b).
Proof.
  unfold string_lt. rewrite (String.compare_antisym b a).
  destruct (String.compare a b); reflexivity.
Qed.

(** *** The order of floats *)

Lemma SFcompare_antisym (x y : spec_float) :
  SFcompare y x = option_map CompOpp (SFcompare x y).
Proof.
  destruct x as [sx | sx | | sx mx ex], y as [sy | sy | | sy my ey];
    try destruct sx; try destruct sy; try reflexivity; cbn;
    rewrite (Z.compare_antisym ex ey);
    destruct (ex ?= ey); cbn; try reflexivity;
    change (PosDef.Pos.compare_cont Eq my mx) with (Pos.compare my mx);
    change (PosDef.Pos.compare_cont Eq mx my) with (Pos.compare mx my);
    now rewrite (Pos.compare_antisym mx my).
Qed.

(** The numeric branch of [compareValues] is the sign of the float
    comparison, and 0 when one side is NaN. *)
Lemma float_branch (x y : spec_float) :
  (if SFltb x y then -1 else if SFltb y x then 1 else 0)
  = match SFcompare x y with
    | Some c => sign_of c
    | None => 0
    end.
Proof.
  unfold SFltb. rewrite (SFcompare_antisym x y).
  destruct (SFcompare x y) as [[| |] |]; reflexivity.
Qed.

Lemma SFcompare_key (x y : spec_float) :
  x <> S754_nan -> y <> S754_nan ->
  SFcompare x y = Some (lex_compare (float_key x) (float_key y)).
Proof.
  intros Hx Hy.
  destruct x as [sx | sx | | sx mx ex], y as [sy | sy | | sy my ey];
    try congruence;
    try destruct sx; try destruct sy; try reflexivity;
    cbn -[Z.compare Z.opp];
    change (PosDef.Pos.compare_cont Eq mx my) with (Pos.compare mx my).
  rewrite Z.compare_opp, (Z.compare_antisym ey ex).
  destruct (ey ?= ex); cbn; reflexivity.
Qed.

Lemma lex_compare_le_trans (a b c : Z * Z * Z) :
  lex_compare a b <> Gt -> lex_compare b c <> Gt -> lex_compare a c <> Gt.
Proof.
  destruct a as [[k1 e1] m1], b as [[k2 e2] m2], c as [[k3 e3] m3].
  unfold lex_compare.
  destruct (Z.compare_spec k1 k2), (Z.compare_spec k2 k3),
    (Z.compare_spec k1 k3); try lia; try congruence;
    destruct (Z.compare_spec e1 e2), (Z.compare_spec e2 e3),
      (Z.compare_spec e1 e3); try lia; try congruence;
    destruct (Z.compare_spec m1 m2), (Z.compare_spec m2 m3),
      (Z.compare_spec m1 m3); try lia; congruence.
Qed.

Lemma lex_compare_lt_trans (a b c : Z * Z * Z) :
  lex_compare a b = Lt -> lex_compare b c = Lt -> lex_compare a c = Lt.
Proof.
  destruct a as [[k1 e1] m1], b as [[k2 e2] m2], c as [[k3 e3] m3].
  unfold lex_compare.
  destruct (Z.compare_spec k1 k2), (Z.compare_spec k2 k3),
    (Z.compare_spec k1 k3); try lia; try congruence;
    destruct (Z.compare_spec e1 e2), (Z.compare_spec e2 e3),
      (Z.compare_spec e1 e3); try lia; try congruence;
    destruct (Z.compare_spec m1 m2), (Z.compare_spec m2 m3),
      (Z.compare_spec m1 m3); try lia; congruence.
Qed.

(** *** The two branches *)

Lemma compareValues_numeric (a b : Cell) (x y : spec_float) :
  Float.ParseFloat (fmtV a) = Some x ->
  Float.ParseFloat (fmtV b) = Some y ->
  compareValues a b
  = match SFcompare x y with
    | Some c => sign_of c
    | None => 0
    end.
Proof.
  intros Ha Hb. unfold compareValues. rewrite Ha, Hb. apply float_branch.
Qed.

Lemma compareValues_textual (a b : Cell) :
  parses a = false \/ parses b = false ->
  compareValues a b = sign_of (String.compare (fmtV a) (fmtV b)).
Proof.
  unfold parses, compareValues. intros H.
  destruct (Float.ParseFloat (fmtV a)), (Float.ParseFloat (fmtV b));
    try apply string_branch.
  destruct H; discriminate.
Qed.

Lemma parses_number_inv (a : Cell) :
  parses_number a = true ->
  exists x, Float.ParseFloat (fmtV a) = Some x /\ x <> S754_nan.
Proof.
  unfold parses_number.
  destruct (Float.ParseFloat (fmtV a)) as [x |]; [| discriminate].
  intros H. exists x. split; [reflexivity |]. intros ->. discriminate.
Qed.

Lemma sign_of_le (c : comparison) : sign_of c <= 0 <-> c <> Gt.
Proof. destruct c; cbn; split; intros; try lia; congruence. Qed.

Lemma sign_of_lt (c : comparison) : sign_of c = -1 <-> c = Lt.
Proof. destruct c; cbn; split; intros; try lia; congruence. Qed.

Lemma compareValues_le_trans (a b c : Cell) :
  uniform a b c ->
  compareValues a b <= 0 -> compareValues b c <= 0 -> compareValues a c <= 0.
Proof.
  intros [(Ha & Hb & Hc) | Htext].
  - apply parses_number_inv in Ha, Hb, Hc.
    destruct Ha as (x & Hx & Nx), Hb as (y & Hy & Ny), Hc as (z & Hz & Nz).
    rewrite (compareValues_numeric a b x y Hx Hy),
      (compareValues_numeric b c y z Hy Hz),
      (compareValues_numeric a c x z Hx Hz).
    rewrite !SFcompare_key by assumption. rewrite !sign_of_le.
    apply lex_compare_le_trans.
  - rewrite !compareValues_textual by tauto. rewrite !sign_of_le.
    apply string_compare_le_trans.
Qed.

Lemma compareValues_lt_trans (a b c : Cell) :
  uniform a b c ->
  compareValues a b = -1 -> compareValues b c = -1 -> compareValues a c = -1.
Proof.
  intros [(Ha & Hb & Hc) | Htext].
  - apply parses_number_inv in Ha, Hb, Hc.
    destruct Ha as (x & Hx & Nx), Hb as (y & Hy & Ny), Hc as (z & Hz & Nz).
    rewrite (compareValues_numeric a b x y Hx Hy),
      (compareValues_numeric b c y z Hy Hz),
      (compareValues_numeric a c x z Hx Hz).
    rewrite !SFcompare_key by assumption. rewrite !sign_of_lt.
    apply lex_compare_lt_trans.
  - rewrite !compareValues_textual by tauto. rewrite !sign_of_lt.
    apply string_compare_lt_trans.
Qed.

(** C1, as the code has it: [compareValues] returns -1, 0 or 1; when the
    texts of both operands parse as floats it is the comparison of the two
    floats (0 when one is NaN); otherwise, also when only one side parses,
    it is the byte-wise comparison of the two texts.  It is antisymmetric:
    exchanging the operands negates the result, and comparing a value with
    itself gives 0.  It is transitive on the triples that are compared the
    same way throughout: all three numbers, or at most one text that
    parses. *)
Theorem compareValues_order :
  (forall a b,
     compareValues a b = -1 \/ compareValues a b = 0 \/ compareValues a b = 1) /\
  (forall a b x y,
     Float.ParseFloat (fmtV a) = Some x ->
     Float.ParseFloat (fmtV b) = Some y ->
     compareValues a b
     = match SFcompare x y with
       | Some c => sign_of c
       | None => 0
       end) /\
  (forall a b,
     parses a = false \/ parses b = false ->
     compareValues a b = sign_of (String.compare (fmtV a) (fmtV b))) /\
  (forall a b, compareValues b a = - compareValues a b) /\
  (forall a, compareValues a a = 0) /\
  (forall a b c,
     uniform a b c ->
     (compareValues a b <= 0 -> compareValues b c <= 0 ->
      compareValues a c <= 0) /\
     (compareValues a b = -1 -> compareValues b c = -1 ->
      compareValues a c = -1)).
Proof.
  assert (Hflip : forall a b, compareValues b a = - compareValues a b).
  { intros a b. unfold compareValues.
    destruct (Float.ParseFloat (fmtV a)) as [x |],
      (Float.ParseFloat (fmtV b)) as [y |];
      rewrite ?float_branch, ?string_branch.
    - rewrite (SFcompare_antisym x y).
      destruct (SFcompare x y) as [[| |] |]; reflexivity.
    - rewrite (String.compare_antisym (fmtV b) (fmtV a)).
      destruct (String.compare (fmtV a) (fmtV b)); reflexivity.
    - rewrite (String.compare_antisym (fmtV b) (fmtV a)).
      destruct (String.compare (fmtV a) (fmtV b)); reflexivity.
    - rewrite (String.compare_antisym (fmtV b) (fmtV a)).
      destruct (String.compare (fmtV a) (fmtV b)); reflexivity. }
  split; [| split; [| split; [| split; [| split]]]].
  - intros a b. unfold compareValues.
    destruct (Float.ParseFloat (fmtV a)), (Float.ParseFloat (fmtV b));
      repeat match goal with
             | |- context [if ?c then _ else _] => destruct c
             end; tauto.
  - exact compareValues_numeric.
  - exact compareValues_textual.
  - exact Hflip.
  - intros a. specialize (Hflip a a). lia.
  - intros a b c Hu. split.
    + now apply compareValues_le_trans.
    + now apply compareValues_lt_trans.
Qed.

Lemma compareValues_order_witness :
  compareValues (CString "20") (CString "10") = 1
  /\ compareValues (CString "abc") (f64 123) = 1
  /\ compareValues (CString "9") (CString "100") <= 0.
Proof.
  destruct compareValues_order as (_ & Hnum & Htext & _ & _ & Htrans).
  split.
  { rewrite (Hnum (CString "20") (CString "10") _ _ eq_refl eq_refl).
    reflexivity. }
  split.
  { rewrite (Htext (CString "abc") (f64 123)) by (left; reflexivity).
    reflexivity. }
  destruct (Htrans (CString "9") (CString "10") (CString "100")) as [Hle _].
  { left. repeat split. }
  apply Hle; vm_compute; discriminate.
Defined.

(** C1, as the claim has it, fails: the comparison is not transitive on a
    triple that mixes numbers with a text that does not parse.  "10" is
    below "1a" and "1a" below "2" as texts, but "10" is above "2" as a
    number. *)
Lemma compareValues_not_transitive :
  compareValues (CString "10") (CString "1a") = -1
  /\ compareValues (CString "1a") (CString "2") = -1
  /\ compareValues (CString "10") (CString "2") = 1
  /\ ~ (forall a b c,
          compareValues a b = -1 -> compareValues b c = -1 ->
          compareValues a c = -1).
Proof.
  assert (H : compareValues (CString "10") (CString "1a") = -1
              /\ compareValues (CString "1a") (CString "2") = -1
              /\ compareValues (CString "10") (CString "2") = 1)
    by (vm_compute; repeat split).
  destruct H as (Hab & Hbc & Hac).
  repeat split; try assumption.
  intros Htrans.
  specialize (Htrans _ _ _ Hab Hbc). rewrite Hac in Htrans. discriminate.
Qed.

(** ** The record codec *)

Lemma parse_digits_pos (p : positive) :
  parse_digits (NilZero.string_of_uint (Pos.to_uint p)) = Some (Zpos p).
Proof.
  unfold parse_digits.
  rewrite NilZero.usu by apply DecimalPos.Unsigned.to_uint_nonnil.
  unfold N.of_uint. now rewrite DecimalPos.Unsigned.of_to.
Qed.

(** The decimal text of a positive number begins with a digit. *)
Lemma string_of_uint_head (p : positive) :
  exists c rest,
    NilZero.string_of_uint (Pos.to_uint p) = String c rest /\
    Ascii.eqb c "+" = false /\ Ascii.eqb c "-" = false.
Proof.
  pose proof (DecimalPos.Unsigned.to_uint_nonnil p) as Hnil.
  destruct (Pos.to_uint p); [congruence | ..]; cbn;
    eexists; eexists; repeat split.
Qed.

Lemma ParseInt_FormatInt (z : Z) :
  - 2 ^ 63 <= z <= 2 ^ 63 - 1 -> ParseInt (FormatInt z) = Some z.
Proof.
  intros Hz. destruct z as [| p | p]; [reflexivity | |].
  - unfold FormatInt, ParseInt.
    destruct (string_of_uint_head p) as (c & rest & E & Hplus & Hminus).
    rewrite E, Hplus, Hminus. cbn [orb]. rewrite <- E, parse_digits_pos.
    destruct (Z.leb_spec (Z.pos p) (2 ^ 63 - 1)); [reflexivity | lia].
  - unfold FormatInt, ParseInt.
    change (Ascii.eqb "-" "-") with true. cbn [orb].
    replace (if Ascii.eqb "-" "+" then true else true) with true
      by reflexivity.
    cbv iota. rewrite orb_true_r, parse_digits_pos.
    destruct (Z.leb_spec (Z.pos p) (2 ^ 63)); [reflexivity | lia].
Qed.

Lemma ParseUint_FormatInt (z : Z) :
  0 <= z <= 2 ^ 64 - 1 -> ParseUint (FormatInt z) = Some z.
Proof.
  intros Hz. destruct z as [| p | p]; [reflexivity | | lia].
  unfold FormatInt, ParseUint. rewrite parse_digits_pos.
  destruct (Z.leb_spec (Z.pos p) (2 ^ 64 - 1)); [reflexivity | lia].
Qed.

Lemma wrap_signed_small (bits z : Z) :
  0 < bits -> - 2 ^ (bits - 1) <= z < 2 ^ (bits - 1) ->
  GoInt.wrap_signed bits z = z.
Proof.
  intros Hb Hz. unfold GoInt.wrap_signed.
  replace (2 ^ bits) with (2 * 2 ^ (bits - 1)).
  - rewrite Z.mod_small by lia. lia.
  - rewrite <- Z.pow_succ_r by lia. f_equal. lia.
Qed.

Lemma wrap_unsigned_small (bits z : Z) :
  0 <= z < 2 ^ bits -> GoInt.wrap_unsigned bits z = z.
Proof. intros Hz. unfold GoInt.wrap_unsigned. now apply Z.mod_small. Qed.

Lemma struct_fields_to_values_all (s : Struct) :
  Forall (fun f => Tag (field_type f) <> "-") s ->
  Forall (fun f => IsExported (Name (field_type f)) = true) s ->
  struct_fields_to_values s = Ok (map field_Interface s).
Proof.
  induction s as [| f s IH]; intros Htag Hexp; [reflexivity |].
  inversion Htag as [| ? ? Ht Hts]; inversion Hexp as [| ? ? He Hes]; subst.
  cbn. apply String.eqb_neq in Ht. rewrite Ht, He, IH by assumption.
  reflexivity.
Qed.

(** [setField] looks at a cell through its text only. *)
Lemma setField_text (field : Field) (value value' : Cell) :
  fmtV value = fmtV value' -> setField field value = setField field value'.
Proof. intros H. unfold setField. now rewrite H. Qed.

(** A field of a predeclared type prints as its underlying value. *)
Lemma prints_plainly_predeclared (f : Field) :
  Defined (field_type f) = None -> prints_plainly f.
Proof. intros H. unfold prints_plainly, field_Interface. now rewrite H. Qed.

(** Coercing the value of a field into a fresh field of its type gives the
    field back. *)
Lemma setField_own_value (f : Field) :
  IsExported (Name (field_type f)) = true ->
  has_kind (field_value f) (Kind (field_type f)) = true ->
  text_round_trips f ->
  prints_plainly f ->
  setField {| field_type := field_type f;
              field_value := zero (Kind (field_type f)) |}
    (field_Interface f)
  = Ok f.
Proof.
  intros Hexp Hkind Htext Hplain.
  rewrite (setField_text _ _ _ Hplain). clear Hplain. revert Hexp Hkind Htext.
  destruct f as [ft v]. cbn [field_type field_value].
  intros Hexp Hkind Htext.
  unfold setField, CanSet, text_round_trips in *.
  cbn [field_type field_value] in *. rewrite Hexp. cbn [negb].
  unfold SetInt, SetUint, SetFloat, SetBool, SetString, set_value.
  cbn [field_type field_value].
  destruct (Kind ft) eqn:Hk; destruct v as [| b | z | sz x | str | text u];
    try discriminate Hkind; try discriminate Htext;
    cbn [has_kind int_bits] in Hkind;
    try (apply andb_true_iff in Hkind; destruct Hkind as [Hlo Hhi];
         apply Z.leb_le in Hlo; apply Z.ltb_lt in Hhi);
    cbn [fmtV zero int_bits];
    try (rewrite ParseInt_FormatInt
           by (change (2 ^ 63) with 9223372036854775808;
               cbn in Hlo, Hhi; lia);
         rewrite wrap_signed_small by (cbn; lia); reflexivity);
    try (rewrite ParseUint_FormatInt
           by (change (2 ^ 64) with 18446744073709551616;
               cbn in Hlo, Hhi; lia);
         rewrite wrap_unsigned_small by (cbn; lia); reflexivity);
    try (destruct Htext as (y & Hy & Hst); cbn [fmtV] in Hy;
         rewrite Hy; cbn [stored_float] in Hst; now rewrite Hst);
    try (now rewrite Htext);
    try reflexivity.
  destruct b; reflexivity.
Qed.

Lemma find_column_nth (names : list string) (n : string) :
  NoDup names ->
  forall i k,
    nth_error names i = Some n ->
    find_column (map CString names) n k = k + Z.of_nat i.
Proof.
  induction 1 as [| x names Hx Hnd IH]; intros i k Hi.
  - destruct i; discriminate.
  - destruct i as [| i]; cbn in Hi |- *.
    + injection Hi as ->. rewrite String.eqb_refl. lia.
    + assert (Hne : (x =? n)%string = false).
      { apply String.eqb_neq. intros ->. apply Hx.
        eapply nth_error_In. eassumption. }
      rewrite Hne, (IH i (k + 1) Hi). lia.
Qed.

Lemma scan_fields_each (row headers : list Cell) (fields : Struct) :
  Forall (fun f =>
            scan_field row headers
              {| field_type := field_type f;
                 field_value := zero (Kind (field_type f)) |} = Ok f) fields ->
  scan_fields row headers
    (map (fun ft => {| field_type := ft; field_value := zero (Kind ft) |})
         (map field_type fields))
  = Ok fields.
Proof.
  induction 1 as [| f fields Hf Hfs IH]; [reflexivity |].
  cbn. rewrite Hf, IH. reflexivity.
Qed.

(** C3, as the code has it: the record codec is a round trip against the
    header that lists the columns in the order of the fields.  For a record
    whose fields are all exported, none ignored, bound to distinct columns,
    each of a type that prints its values as the underlying value, and each
    able to come back from its own text, encoding gives the values of the
    fields in declaration order, and decoding that row against that header
    into a fresh record gives the record back. *)
Theorem codec_round_trip (s : Struct) :
  well_typed s = true ->
  Forall (fun f => Tag (field_type f) <> "-") s ->
  Forall (fun f => IsExported (Name (field_type f)) = true) s ->
  NoDup (map (fun f => column_name (field_type f)) s) ->
  Forall text_round_trips s ->
  Forall prints_plainly s ->
  structToValues (GStruct s) = Ok (map field_Interface s) /\
  scanRow (map field_Interface s) (header_of s) (fresh s) = Ok s.
Proof.
  intros Htyped Htag Hexp Hnd Htext Hplain.
  split; [now apply struct_fields_to_values_all |].
  unfold fresh. cbn [zero_value scanRow].
  apply scan_fields_each. apply Forall_forall. intros f Hin.
  destruct (In_nth_error _ _ Hin) as [i Hi].
  unfold scan_field. cbn [field_type].
  rewrite Forall_forall in Htag, Hexp, Htext, Hplain.
  pose proof (Htag f Hin) as Ht. apply String.eqb_neq in Ht. rewrite Ht.
  unfold header_of.
  rewrite <- (map_map (fun f => column_name (field_type f)) CString).
  rewrite (find_column_nth _ _ Hnd i 0)
    by (rewrite nth_error_map, Hi; reflexivity).
  assert (Hlt : (i < List.length s)%nat)
    by (apply nth_error_Some; congruence).
  destruct (Z.eqb_spec (0 + Z.of_nat i) (-1)) as [E | _]; [lia |].
  cbn [orb]. unfold len. rewrite length_map.
  destruct (Z.leb_spec (Z.of_nat (List.length s)) (0 + Z.of_nat i)); [lia |].
  unfold elem_at. destruct (Z.ltb_spec (0 + Z.of_nat i) 0); [lia |].
  replace (Z.to_nat (0 + Z.of_nat i)) with i by lia.
  rewrite nth_error_map, Hi. cbn [option_map].
  rewrite setField_own_value;
    [reflexivity | now apply Hexp | | now apply Htext | now apply Hplain].
  unfold well_typed in Htyped. rewrite forallb_forall in Htyped.
  now apply Htyped.
Qed.

Lemma codec_round_trip_witness :
  structToValues (GStruct widget)
  = Ok [CString "W-1"; CInt (-7); CFloat Float.F64 pi_ish; CBool true]
  /\ scanRow
       [CString "W-1"; CInt (-7); CFloat Float.F64 pi_ish; CBool true]
       (map CString ["SKU"; "Stock"; "Price"; "Active"])
       (zero_value (TStruct Product))
     = Ok widget.
Proof.
  apply (codec_round_trip widget).
  - reflexivity.
  - repeat constructor; discriminate.
  - repeat constructor.
  - repeat constructor; cbn; intuition discriminate.
  - repeat apply Forall_cons; try apply Forall_nil; try exact I.
    exists pi_ish. split; vm_compute; reflexivity.
  - repeat apply Forall_cons; try apply Forall_nil;
      apply prints_plainly_predeclared; reflexivity.
Defined.

(** C3, as the claim has it, fails: the header need only hold the column
    names in another order.  Encoding puts the values in the order of the
    fields, and decoding takes for each field the cell at the position of
    its column in the header: with the header B, A the two fields come back
    exchanged. *)
Lemma round_trip_permuted_header :
  let s := combine_fields Pair [CString "x"; CString "y"] in
  structToValues (GStruct s) = Ok [CString "x"; CString "y"]
  /\ scanRow [CString "x"; CString "y"] [CString "B"; CString "A"] (fresh s)
     = Ok (combine_fields Pair [CString "y"; CString "x"])
  /\ scanRow [CString "x"; CString "y"] [CString "B"; CString "A"] (fresh s)
     <> Ok s.
Proof. vm_compute. repeat split. discriminate. Qed.

(** The round trip fails as well, against the header in the order of the
    fields, for a field of a defined type that prints through a method:
    encoding hands over the value with its type, decoding reads its text,
    which is no numeral, and the field stays zero. *)
Example round_trip_defined_type :
  let s := combine_fields Timed [CInt 5] in
  structToValues (GStruct s) = Ok [CNamed "5ns" (CInt 5)]
  /\ scanRow [CNamed "5ns" (CInt 5)] (header_of s) (fresh s)
     = Ok (combine_fields Timed [CInt 0]).
Proof. cbv zeta. split; reflexivity. Qed.

(** The other hypotheses of the round trip are needed as well: encoding a
    record with a field that is not exported panics; two fields bound to
    one column both receive the first of the two cells; a field of kind
    interface is never set. *)
Example round_trip_limits :
  structToValues (GStruct (combine_fields Hidden [CInt 1; CString "s"]))
  = Panic "reflect.Value.Interface: cannot return value obtained from unexported field or method"
  /\ scanRow [CString "a"; CString "b"] [CString "X"; CString "X"]
       (zero_value (TStruct Twice))
     = Ok (combine_fields Twice [CString "a"; CString "a"])
  /\ scanRow [CString "a"] [CString "Any"] (zero_value (TStruct Loose))
     = Ok (combine_fields Loose [CNil]).
Proof. vm_compute. repeat split. Qed.

(** * Further properties of the code *)

(** ** Filters *)

Lemma matchesFilters_loop_forallb (fs : list Filter) (row headers : list Cell) :
  matchesFilters_loop fs row headers = forallb (matchesFilter row headers) fs.
Proof.
  induction fs as [| f fs IH]; [reflexivity |].
  cbn [matchesFilters_loop forallb]. unfold matchesFilter at 1.
  destruct ((_ =? -1) || _); [reflexivity |].
  destruct (elem_at row _); [| reflexivity].
  rewrite <- IH. now destruct (matchesOperator _ _ _).
Qed.

Lemma filter_all {A : Type} (l : list A) : List.filter (fun _ => true) l = l.
Proof. induction l; cbn; congruence. Qed.

Lemma applyFilters_filter {S : Type} (q : Query S) (rows : Grid)
  (headers : list Cell) :
  applyFilters q rows headers
  = List.filter (fun row => forallb (matchesFilter row headers) (filters q))
      rows.
Proof.
  unfold applyFilters, matchesFilters.
  destruct (Z.eqb_spec (len (filters q)) 0) as [E | _].
  - destruct (filters q); [| discriminate E].
    cbn [forallb]. now rewrite filter_all.
  - apply filter_ext. intros row. apply matchesFilters_loop_forallb.
Qed.

(** X1: the rows that survive the filters of a query are the rows that
    satisfy every one of them, as [matchesFilter] decides it for
    [UpdateWhere] and [DeleteWhere], in the order of the grid; with no
    filter every row survives. *)
Theorem applyFilters_conjunction {S : Type} (q : Query S) (rows : Grid)
  (headers : list Cell) :
  applyFilters q rows headers
  = List.filter (fun row => forallb (matchesFilter row headers) (filters q))
      rows /\
  (forall row,
     In row (applyFilters q rows headers) <->
     In row rows /\
     forall f, In f (filters q) -> matchesFilter row headers f = true) /\
  (filters q = [] -> applyFilters q rows headers = rows).
Proof.
  pose proof (applyFilters_filter q rows headers) as Heq.
  split; [exact Heq |]. split.
  - intros row. rewrite Heq, filter_In, forallb_forall. reflexivity.
  - intros Hnil. rewrite Heq, Hnil. cbn [forallb]. apply filter_all.
Qed.

Lemma applyFilters_conjunction_witness :
  applyFilters
    (Where (Where (NewQuery (mock_table people)) "Age" ">=" (CInt 28))
       "Name" "contains" (CString "li"))
    (tl people) (hd [] people)
  = [[f64 1; CString "Alice"; f64 30]; [f64 3; CString "Charlie"; f64 35]]
  /\ applyFilters (NewQuery (mock_table people)) (tl people) (hd [] people)
     = tl people.
Proof.
  split.
  - destruct (applyFilters_conjunction
                (Where (Where (NewQuery (mock_table people)) "Age" ">=" (CInt 28))
                   "Name" "contains" (CString "li"))
                (tl people) (hd [] people)) as [H _].
    rewrite H. vm_compute. reflexivity.
  - destruct (applyFilters_conjunction (NewQuery (mock_table people))
                (tl people) (hd [] people)) as (_ & _ & H).
    apply H. reflexivity.
Defined.

Lemma forallb_permutation {A : Type} (p : A -> bool) (l l' : list A) :
  Permutation l l' -> forallb p l = forallb p l'.
Proof.
  induction 1 as [| x l l' _ IH | x y l | l l' l'' _ IH1 _ IH2]; cbn.
  - reflexivity.
  - now rewrite IH.
  - now rewrite !andb_assoc, (andb_comm (p y) (p x)).
  - congruence.
Qed.

(** X2: the order of the [Where] calls does not matter, nor does any
    [OrderBy]: two queries on the same table with the same limit and the
    same filters in any order give the same result, destination and
    calls. *)
Theorem Get_filter_order {S : Type} (q1 q2 : Query S) (dest : GoValue)
  (w : World S) :
  table q1 = table q2 ->
  limit q1 = limit q2 ->
  Permutation (filters q1) (filters q2) ->
  Get q1 dest w = Get q2 dest w.
Proof.
  intros Ht Hl Hp. unfold Get, bind. rewrite Ht.
  destruct (client_Read _ _ w) as [[data | e | p] w']; try reflexivity.
  destruct (len data <? 2); [reflexivity |].
  destruct data as [| headers rows]; [reflexivity |].
  unfold applySort.
  assert (Hf : applyFilters q1 rows headers = applyFilters q2 rows headers).
  { rewrite !applyFilters_filter.
    apply filter_ext. intros row. now apply forallb_permutation. }
  rewrite Hf. unfold applyLimit. rewrite Hl.
  destruct (negb (orderBy q1 =? "")%string), (negb (orderBy q2 =? "")%string);
    reflexivity.
Qed.

Lemma Get_filter_order_witness :
  let q := NewQuery (mock_table people) in
  let dest := GPtr (GSlice (TStruct Person) []) in
  Get (Limit (Where (Where q "Age" ">=" (CInt 28)) "Name" "like" (CString "a")) 1)
    dest start
  = Get (OrderBy (Where (Where (Limit q 1) "Name" "like" (CString "a"))
                    "Age" ">=" (CInt 28)) "Age" true)
      dest start.
Proof.
  cbv zeta. apply Get_filter_order.
  - reflexivity.
  - reflexivity.
  - apply perm_swap.
Defined.

(** ** Operators *)

Lemma SFcompare_refl (x : spec_float) :
  SFcompare x x = Some Eq \/ SFcompare x x = None.
Proof.
  pose proof (SFcompare_antisym x x) as H.
  destruct (SFcompare x x) as [[| |] |]; cbn in H; try discriminate H;
    [now left | now right].
Qed.

Lemma compareValues_flip (a b : Cell) :
  compareValues b a = - compareValues a b.
Proof.
  unfold compareValues.
  destruct (Float.ParseFloat (fmtV a)) as [x |],
    (Float.ParseFloat (fmtV b)) as [y |];
    rewrite ?float_branch, ?string_branch.
  - rewrite (SFcompare_antisym x y).
    destruct (SFcompare x y) as [[| |] |]; reflexivity.
  - rewrite (String.compare_antisym (fmtV b) (fmtV a)).
    destruct (String.compare (fmtV a) (fmtV b)); reflexivity.
  - rewrite (String.compare_antisym (fmtV b) (fmtV a)).
    destruct (String.compare (fmtV a) (fmtV b)); reflexivity.
  - rewrite (String.compare_antisym (fmtV b) (fmtV a)).
    destruct (String.compare (fmtV a) (fmtV b)); reflexivity.
Qed.

Lemma compareValues_same_text (a b : Cell) :
  fmtV a = fmtV b -> compareValues a b = 0.
Proof.
  intros H. unfold compareValues. rewrite H.
  destruct (Float.ParseFloat (fmtV b)) as [x |].
  - rewrite float_branch. now destruct (SFcompare_refl x) as [-> | ->].
  - now rewrite string_branch, string_compare_refl.
Qed.

Lemma matchesOperator_unknown (cell value : Cell) (op : string) :
  ~ In op operators -> matchesOperator cell op value = false.
Proof.
  intros Hop. unfold matchesOperator.
  repeat match goal with
         | |- context [String.eqb op ?s] =>
             destruct (String.eqb_spec op s) as [-> | _];
             [exfalso; apply Hop; cbn; tauto |]
         end.
  reflexivity.
Qed.

(** X3: how the operators of a filter relate, for every cell and value:
    [=] holds between a cell and itself, [==] is [=], [!=] is its negation;
    [<=] is the negation of [>] and [>=] of [<]; [<] and [>], [<=] and [>=]
    are each other's converse; where [=] holds so do [<=] and [>=]; [like]
    is [contains]; any other operator is false. *)
Theorem matchesOperator_algebra (cell value : Cell) :
  matchesOperator cell "=" cell = true /\
  matchesOperator cell "==" value = matchesOperator cell "=" value /\
  matchesOperator cell "!=" value = negb (matchesOperator cell "=" value) /\
  matchesOperator cell "<=" value = negb (matchesOperator cell ">" value) /\
  matchesOperator cell ">=" value = negb (matchesOperator cell "<" value) /\
  matchesOperator cell "<" value = matchesOperator value ">" cell /\
  matchesOperator cell "<=" value = matchesOperator value ">=" cell /\
  (matchesOperator cell "=" value = true ->
   matchesOperator cell "<=" value = true /\
   matchesOperator cell ">=" value = true) /\
  matchesOperator cell "like" value = matchesOperator cell "contains" value /\
  (forall op, ~ In op operators -> matchesOperator cell op value = false).
Proof.
  change (matchesOperator cell "=" cell) with (String.eqb (fmtV cell) (fmtV cell)).
  change (matchesOperator cell "==" value)
    with (String.eqb (fmtV cell) (fmtV value)).
  change (matchesOperator cell "=" value)
    with (String.eqb (fmtV cell) (fmtV value)).
  change (matchesOperator cell "!=" value)
    with (negb (String.eqb (fmtV cell) (fmtV value))).
  change (matchesOperator cell "<=" value)
    with (compareValues cell value <=? 0).
  change (matchesOperator cell ">=" value)
    with (0 <=? compareValues cell value).
  change (matchesOperator cell "<" value)
    with (compareValues cell value <? 0).
  change (matchesOperator cell ">" value)
    with (0 <? compareValues cell value).
  change (matchesOperator value ">" cell)
    with (0 <? compareValues value cell).
  change (matchesOperator value ">=" cell)
    with (0 <=? compareValues value cell).
  rewrite (compareValues_flip cell value).
  repeat split.
  - apply String.eqb_refl.
  - destruct (Z.leb_spec (compareValues cell value) 0),
      (Z.ltb_spec 0 (compareValues cell value)); try reflexivity; lia.
  - destruct (Z.leb_spec 0 (compareValues cell value)),
      (Z.ltb_spec (compareValues cell value) 0); try reflexivity; lia.
  - destruct (Z.ltb_spec (compareValues cell value) 0),
      (Z.ltb_spec 0 (- compareValues cell value)); try reflexivity; lia.
  - destruct (Z.leb_spec (compareValues cell value) 0),
      (Z.leb_spec 0 (- compareValues cell value)); try reflexivity; lia.
  - apply String.eqb_eq in H.
    rewrite (compareValues_same_text cell value H). reflexivity.
  - apply String.eqb_eq in H.
    rewrite (compareValues_same_text cell value H). reflexivity.
  - apply matchesOperator_unknown.
Qed.

Lemma matchesOperator_algebra_witness :
  matchesOperator (CString "a") "=" (CString "a") = true
  /\ matchesOperator (f64 30) "=>" (CInt 28) = false.
Proof.
  destruct (matchesOperator_algebra (CString "a") (CString "a")) as [H _].
  destruct (matchesOperator_algebra (f64 30) (CInt 28))
    as (_ & _ & _ & _ & _ & _ & _ & _ & _ & Hop).
  split; [exact H |].
  apply Hop. cbn. intros Hin.
  repeat (destruct Hin as [Hin | Hin]; [discriminate Hin |]). exact Hin.
Defined.

(** *** Substrings *)

Lemma prefix_iff (a b : string) :
  String.prefix a b = true <-> exists post, b = (a ++ post)%string.
Proof.
  revert b. induction a as [| x a IH]; intros [| y b]; cbn.
  - split; [intros _; now exists "" | reflexivity].
  - split; [intros _; now exists (String y b) | reflexivity].
  - split; [discriminate | intros [post H]; discriminate H].
  - destruct (ascii_dec x y) as [-> | Hne].
    + rewrite IH. split; intros [post H]; exists post.
      * now rewrite H.
      * now injection H.
    + split; [discriminate |].
      intros [post H]. injection H as H1 _. congruence.
Qed.

Lemma Contains_iff (s substr : string) :
  Contains s substr = true <->
  exists pre post, s = (pre ++ substr ++ post)%string.
Proof.
  induction s as [| c s IH].
  - cbn [Contains]. rewrite orb_false_r, prefix_iff. split.
    + intros [post H]. now exists "", post.
    + intros (pre & post & H). destruct pre; [now exists post |].
      discriminate H.
  - cbn [Contains]. rewrite orb_true_iff, prefix_iff, IH. split.
    + intros [[post H] | (pre & post & H)].
      * now exists "", post.
      * exists (String c pre), post. cbn. now rewrite H.
    + intros (pre & post & H). destruct pre as [| c' pre].
      * left. now exists post.
      * right. injection H as _ H. now exists pre, post.
Qed.

Lemma byte_inj (a b : ascii) : byte a = byte b -> a = b.
Proof.
  unfold byte. intros H. apply N2Z.inj in H.
  rewrite <- (ascii_N_embedding a), <- (ascii_N_embedding b). now rewrite H.
Qed.

Lemma byte_range (c : ascii) : 0 <= byte c < 256.
Proof.
  unfold byte. pose proof (N_ascii_bounded c). lia.
Qed.

Lemma byte_lower_byte (c : ascii) :
  byte (lower_byte c)
  = if (65 <=? byte c) && (byte c <=? 90) then byte c + 32 else byte c.
Proof.
  unfold lower_byte.
  destruct ((65 <=? byte c) && (byte c <=? 90)) eqn:E; [| reflexivity].
  apply andb_true_iff in E. destruct E as [Hlo Hhi].
  apply Z.leb_le in Hlo, Hhi.
  unfold byte in *. rewrite N_ascii_embedding by lia. lia.
Qed.

Lemma lower_byte_eq_iff (a b : ascii) :
  lower_byte a = lower_byte b <-> same_letter a b = true.
Proof.
  pose proof (byte_range a) as Ha. pose proof (byte_range b) as Hb.
  assert (Hiff : lower_byte a = lower_byte b <->
                 byte (lower_byte a) = byte (lower_byte b)).
  { split; [now intros -> | apply byte_inj]. }
  rewrite Hiff, !byte_lower_byte. unfold same_letter.
  destruct (Z.leb_spec 65 (byte a)), (Z.leb_spec (byte a) 90),
    (Z.leb_spec 65 (byte b)), (Z.leb_spec (byte b) 90),
    (Z.eqb_spec (byte a) (byte b)), (Z.eqb_spec (byte b) (byte a + 32)),
    (Z.eqb_spec (byte a) (byte b + 32));
    cbn [andb orb]; split; intros Heq; try reflexivity;
    try discriminate Heq; lia.
Qed.

Lemma ToLower_eq_iff (s t : string) :
  ToLower s = ToLower t <-> equal_fold s t = true.
Proof.
  revert t. induction s as [| a s IH]; intros [| b t]; cbn.
  - split; reflexivity.
  - split; discriminate.
  - split; discriminate.
  - rewrite andb_true_iff, <- IH, <- lower_byte_eq_iff. split.
    + intros H. injection H as H1 H2. now split.
    + intros [H1 H2]. now rewrite H1, H2.
Qed.

Lemma ToLower_app (a b : string) :
  ToLower (a ++ b) = (ToLower a ++ ToLower b)%string.
Proof. induction a as [| c a IH]; cbn; [reflexivity | now rewrite IH]. Qed.

Lemma ToLower_split (x y : string) :
  forall s,
    ToLower s = (x ++ y)%string ->
    exists a b, s = (a ++ b)%string /\ ToLower a = x /\ ToLower b = y.
Proof.
  induction x as [| c x IH]; intros s H.
  - exists ""%string, s. repeat split. exact H.
  - destruct s as [| d s]; [discriminate H |].
    cbn in H. injection H as Hc Hs.
    destruct (IH s Hs) as (a & b & -> & Ha & Hb).
    exists (String d a), b. cbn. now rewrite Hc, Ha.
Qed.

(** X4: on text of the ASCII range, [contains] and [like] look for the
    value within the cell without regard to the case of the letters: they
    hold exactly when some stretch of the text of the cell is the text of
    the value up to the case of the letters A to Z. *)
Theorem contains_ignores_case (cell value : Cell) (op : string) :
  is_ascii (fmtV cell) = true ->
  is_ascii (fmtV value) = true ->
  In op ["contains"; "like"]%string ->
  (matchesOperator cell op value = true <->
   exists pre mid post,
     fmtV cell = (pre ++ mid ++ post)%string /\
     equal_fold mid (fmtV value) = true).
Proof.
  intros _ _ Hop.
  assert (Hm : matchesOperator cell op value
               = Contains (ToLower (fmtV cell)) (ToLower (fmtV value))).
  { cbn in Hop. destruct Hop as [<- | [<- | []]]; reflexivity. }
  rewrite Hm, Contains_iff. split.
  - intros (pre' & post' & H).
    destruct (ToLower_split _ _ _ H) as (pre & rest & Hc & _ & Hrest).
    destruct (ToLower_split _ _ _ Hrest) as (mid & post & -> & Hmid & _).
    exists pre, mid, post. split; [exact Hc |]. now apply ToLower_eq_iff.
  - intros (pre & mid & post & Hc & Hmid).
    apply ToLower_eq_iff in Hmid.
    exists (ToLower pre), (ToLower post).
    now rewrite Hc, !ToLower_app, Hmid.
Qed.

Lemma contains_ignores_case_witness :
  matchesOperator (CString "Say HELLO") "like" (CString "hello") = true
  /\ matchesOperator (CString "Charlie") "contains" (CString "LI") = true.
Proof.
  split.
  - apply (contains_ignores_case (CString "Say HELLO") (CString "hello")
             "like" eq_refl eq_refl).
    + cbn. tauto.
    + exists "Say "%string, "HELLO"%string, ""%string. split; reflexivity.
  - apply (contains_ignores_case (CString "Charlie") (CString "LI")
             "contains" eq_refl eq_refl).
    + cbn. tauto.
    + exists "Char"%string, "li"%string, "e"%string. split; reflexivity.
Defined.

(** X5: a filter with [=] on a column that the row has, against the very
    cell the row holds there, matches; and so do [==], [<=], [>=],
    [contains] and [like]. *)
Theorem matchesFilter_reflexive (row headers : list Cell) (col : string)
  (cell : Cell) :
  elem_at row (find_column headers col 0) = Some cell ->
  forall op,
    In op ["="; "=="; "<="; ">="; "contains"; "like"] ->
    matchesFilter row headers
      {| Column := col; Operator := op; Value := cell |} = true.
Proof.
  intros Hcell op Hop. unfold matchesFilter. cbn [Column Operator Value].
  assert (Hrange : 0 <= find_column headers col 0 < len row).
  { unfold elem_at, len in *.
    destruct (Z.ltb_spec (find_column headers col 0) 0); [discriminate |].
    split; [assumption |].
    assert (H1 : nth_error row (Z.to_nat (find_column headers col 0)) <> None)
      by congruence.
    apply nth_error_Some in H1. lia. }
  destruct (Z.eqb_spec (find_column headers col 0) (-1)); [lia |].
  destruct (Z.leb_spec (len row) (find_column headers col 0)); [lia |].
  cbn [orb]. rewrite Hcell.
  assert (Hcmp : compareValues cell cell = 0)
    by now apply compareValues_same_text.
  assert (Hsub : Contains (ToLower (fmtV cell)) (ToLower (fmtV cell)) = true).
  { apply Contains_iff. exists "", "". cbn.
    clear. induction (ToLower (fmtV cell)); cbn; congruence. }
  cbn in Hop.
  repeat (destruct Hop as [<- | Hop];
          [unfold matchesOperator; cbn [String.eqb Ascii.eqb Bool.eqb orb];
           rewrite ?String.eqb_refl, ?Hcmp, ?Hsub; reflexivity |]).
  destruct Hop.
Qed.

Lemma matchesFilter_reflexive_witness :
  matchesFilter [f64 2; CString "Bob"; f64 25]
    (map CString ["ID"; "Name"; "Age"])
    {| Column := "Age"; Operator := ">="; Value := f64 25 |} = true.
Proof.
  apply matchesFilter_reflexive; [reflexivity | cbn; tauto].
Defined.

(** ** Encoding *)

Lemma struct_fields_to_values_ok (s : Struct) :
  Forall (fun f => ignored f = false ->
                   IsExported (Name (field_type f)) = true) s ->
  struct_fields_to_values s
  = Ok (map field_Interface (List.filter (fun f => negb (ignored f)) s)).
Proof.
  induction 1 as [| f s Hf Hs IH]; [reflexivity |].
  cbn [struct_fields_to_values List.filter]. fold (ignored f).
  destruct (ignored f); [exact IH |].
  rewrite (Hf eq_refl), IH. reflexivity.
Qed.

Lemma struct_fields_to_values_panic (s : Struct) :
  Exists (fun f => ignored f = false /\
                   IsExported (Name (field_type f)) = false) s ->
  struct_fields_to_values s = Panic unexported_msg.
Proof.
  induction s as [| f s IH]; intros Hex; [inversion Hex |].
  cbn [struct_fields_to_values]. fold (ignored f).
  destruct (ignored f) eqn:Hi.
  - apply IH. inversion Hex as [? ? [Hi' _] | ? ? Ht]; subst;
      [congruence | assumption].
  - destruct (IsExported (Name (field_type f))) eqn:He; [| reflexivity].
    cbn [negb]. rewrite IH; [reflexivity |].
    inversion Hex as [? ? [_ He'] | ? ? Ht]; subst; [congruence | assumption].
Qed.

Lemma filter_negb_length {A : Type} (p : A -> bool) (l : list A) :
  len (List.filter (fun x => negb (p x)) l) = len l - len (List.filter p l).
Proof.
  unfold len. induction l as [| x l IH]; [reflexivity |].
  cbn [List.filter]. destruct (p x); cbn [negb List.length]; lia.
Qed.

(** X6: [structToValues] on a struct, or on a pointer to one, gives the
    values of the fields that are not ignored, each as [field.Interface()]
    returns it, in declaration order, so as many cells as there are fields
    less the ignored ones, provided those fields are exported; it panics when such a field is not exported; on
    any other value it fails with "record must be a struct". *)
Theorem structToValues_spec :
  (forall s,
     Forall (fun f => ignored f = false ->
                      IsExported (Name (field_type f)) = true) s ->
     let values :=
       map field_Interface (List.filter (fun f => negb (ignored f)) s) in
     structToValues (GStruct s) = Ok values /\
     structToValues (GPtr (GStruct s)) = Ok values /\
     len values = len s - len (List.filter ignored s)) /\
  (forall s,
     Exists (fun f => ignored f = false /\
                      IsExported (Name (field_type f)) = false) s ->
     structToValues (GStruct s) = Panic unexported_msg /\
     structToValues (GPtr (GStruct s)) = Panic unexported_msg) /\
  (forall record,
     (forall s, record <> GStruct s) ->
     (forall s, record <> GPtr (GStruct s)) ->
     structToValues record = Err "record must be a struct").
Proof.
  split; [| split].
  - intros s Hs values. cbn [structToValues].
    rewrite struct_fields_to_values_ok by assumption.
    repeat split. unfold values, len. rewrite length_map.
    apply (filter_negb_length ignored s).
  - intros s Hs. cbn [structToValues].
    now rewrite struct_fields_to_values_panic.
  - intros record Hs Hp.
    destruct record as [c | s | | target | ty elems]; try reflexivity.
    + now elim (Hs s).
    + destruct target as [c | s | | target | ty elems]; try reflexivity.
      now elim (Hp s).
Qed.

Lemma structToValues_spec_witness :
  structToValues (GPtr (GStruct sensor)) = Ok [CInt 5; CInt 9]
  /\ structToValues (GStruct (combine_fields Hidden [CInt 1; CString "s"]))
     = Panic unexported_msg
  /\ structToValues (GCell (CString "not a struct"))
     = Err "record must be a struct".
Proof.
  destruct structToValues_spec as (Hok & Hpanic & Herr).
  split.
  { destruct (Hok sensor) as (_ & H & _); [| exact H].
    repeat constructor. }
  split.
  { destruct (Hpanic (combine_fields Hidden [CInt 1; CString "s"]))
      as [H _]; [| exact H].
    apply Exists_cons_tl, Exists_cons_hd. split; reflexivity. }
  apply Herr; discriminate.
Defined.

(** ** Decoding *)

Lemma find_column_shift (headers : list Cell) (col : string) :
  forall k,
    find_column headers col k
    = if find_column headers col 0 =? -1 then -1
      else k + find_column headers col 0.
Proof.
  induction headers as [| h headers IH]; intros k; [reflexivity |].
  cbn [find_column].
  destruct (interface_eq_string h col).
  - cbn. lia.
  - rewrite (IH (k + 1)), (IH (0 + 1)).
    destruct (find_column_range headers col 0) as [-> | Hr]; [reflexivity |].
    destruct (Z.eqb_spec (find_column headers col 0) (-1)); [lia |].
    destruct (Z.eqb_spec (0 + 1 + find_column headers col 0) (-1)); lia.
Qed.

Lemma lookup_cell_find (headers : list Cell) (col : string) :
  forall row,
    lookup_cell headers row col
    = let i := find_column headers col 0 in
      if (i =? -1) || (len row <=? i) then None else elem_at row i.
Proof.
  induction headers as [| h headers IH]; intros row; [reflexivity |].
  cbv zeta. destruct row as [| c row].
  - cbn [lookup_cell].
    destruct (find_column_range (h :: headers) col 0) as [-> | Hr];
      [reflexivity |].
    destruct (Z.eqb_spec (find_column (h :: headers) col 0) (-1));
      [reflexivity |].
    cbn [orb]. unfold len at 1. cbn [List.length].
    change (Z.of_nat 0) with 0.
    destruct (Z.leb_spec 0 (find_column (h :: headers) col 0));
      [reflexivity | lia].
  - cbn [lookup_cell find_column].
    destruct (interface_eq_string h col); [reflexivity |].
    rewrite IH, (find_column_shift headers col (0 + 1)). cbv zeta.
    destruct (find_column_range headers col 0) as [E | Hr].
    + rewrite E. reflexivity.
    + destruct (Z.eqb_spec (find_column headers col 0) (-1)); [lia |].
      destruct (Z.eqb_spec (0 + 1 + find_column headers col 0) (-1)); [lia |].
      cbn [orb]. unfold len. cbn [List.length].
      destruct (Z.leb_spec (Z.of_nat (List.length row))
                  (find_column headers col 0)),
        (Z.leb_spec (Z.of_nat (Datatypes.S (List.length row)))
           (0 + 1 + find_column headers col 0)); try lia; [reflexivity |].
      unfold elem_at.
      destruct (Z.ltb_spec (find_column headers col 0) 0); [lia |].
      destruct (Z.ltb_spec (0 + 1 + find_column headers col 0) 0); [lia |].
      replace (Z.to_nat (0 + 1 + find_column headers col 0))
        with (Datatypes.S (Z.to_nat (find_column headers col 0))) by lia.
      reflexivity.
Qed.

Lemma lookup_cell_in_range (headers row : list Cell) (col : string) :
  let i := find_column headers col 0 in
  (i =? -1) || (len row <=? i) = false ->
  exists cell, elem_at row i = Some cell /\
               lookup_cell headers row col = Some cell.
Proof.
  cbv zeta. intros Hc.
  pose proof (lookup_cell_find headers col row) as Hl. cbv zeta in Hl.
  rewrite Hc in Hl.
  apply orb_false_iff in Hc. destruct Hc as [H1 H2].
  apply Z.eqb_neq in H1. apply Z.leb_gt in H2.
  destruct (find_column_range headers col 0) as [E | Hr]; [lia |].
  destruct (elem_at_in_range row (find_column headers col 0) ltac:(lia))
    as [cell Hcell].
  exists cell. split; [assumption | now rewrite Hl].
Qed.

(** [scan_field] and [matchesFilter] see the header and the row through
    [lookup_cell] only. *)
Lemma scan_field_lookup (row headers : list Cell) (field : Field) :
  scan_field row headers field
  = if ignored field then Ok field
    else
      match lookup_cell headers row (column_name (field_type field)) with
      | Some cell =>
          match setField field cell with
          | Ok field' => Ok field'
          | Err e =>
              Err (wrap_error
                     ("failed to set field " ++ Name (field_type field))%string
                     e)
          | Panic p => Panic p
          end
      | None => Ok field
      end.
Proof.
  unfold scan_field, ignored.
  destruct (Tag (field_type field) =? "-")%string; [reflexivity |].
  destruct ((find_column headers (column_name (field_type field)) 0 =? -1)
            || (len row <=? find_column headers (column_name (field_type field)) 0))
    eqn:Hc.
  - pose proof (lookup_cell_find headers (column_name (field_type field)) row)
      as Hl.
    cbv zeta in Hl. now rewrite Hc in Hl; rewrite Hl.
  - destruct (lookup_cell_in_range headers row _ Hc) as (cell & -> & ->).
    reflexivity.
Qed.

Lemma matchesFilter_lookup (row headers : list Cell) (f : Filter) :
  matchesFilter row headers f
  = match lookup_cell headers row (Column f) with
    | Some cell => matchesOperator cell (Operator f) (Value f)
    | None => false
    end.
Proof.
  unfold matchesFilter.
  destruct ((find_column headers (Column f) 0 =? -1)
            || (len row <=? find_column headers (Column f) 0)) eqn:Hc.
  - pose proof (lookup_cell_find headers (Column f) row) as Hl.
    cbv zeta in Hl. now rewrite Hc in Hl; rewrite Hl.
  - destruct (lookup_cell_in_range headers row _ Hc) as (cell & -> & ->).
    reflexivity.
Qed.

Lemma lookup_cell_assoc (headers : list Cell) (col : string) :
  forall row,
    lookup_cell headers row col = assoc_cell (combine headers row) col.
Proof.
  induction headers as [| h headers IH]; intros [| c row]; try reflexivity.
  cbn. now rewrite IH.
Qed.

Lemma assoc_cell_permutation (l l' : list (Cell * Cell)) (col : string) :
  Permutation l l' -> NoDup (map fst l) ->
  assoc_cell l col = assoc_cell l' col.
Proof.
  induction 1 as [| [h c] l l' Hp IH | [h1 c1] [h2 c2] l
                  | l l' l'' Hp1 IH1 Hp2 IH2]; intros Hnd.
  - reflexivity.
  - cbn. inversion Hnd; subst. now rewrite IH.
  - cbn. destruct (interface_eq_string h2 col) eqn:E2,
      (interface_eq_string h1 col) eqn:E1; try reflexivity.
    apply interface_eq_string_iff in E1, E2. subst.
    cbn in Hnd. inversion Hnd as [| ? ? Hin _]; subst.
    exfalso. apply Hin. now left.
  - rewrite IH1 by assumption. apply IH2.
    eapply Permutation_NoDup; [| exact Hnd].
    now apply Permutation_map.
Qed.

Lemma map_fst_combine {A B : Type} (l : list A) :
  forall (l' : list B),
    List.length l = List.length l' -> map fst (combine l l') = l.
Proof.
  induction l as [| x l IH]; intros [| y l'] H; try discriminate; cbn;
    [reflexivity |].
  f_equal. apply IH. now injection H.
Qed.

Lemma scan_fields_ext (row headers row' headers' : list Cell) (s : Struct) :
  (forall f, scan_field row headers f = scan_field row' headers' f) ->
  scan_fields row headers s = scan_fields row' headers' s.
Proof.
  intros H. induction s as [| f s IH]; [reflexivity |].
  cbn. now rewrite H, IH.
Qed.

(** X7: reading is keyed by column name.  When a grid has a cell under
    every header and the header cells are distinct, presenting the same
    columns in another order, header and row alike, changes neither what a
    row decodes to nor whether it matches a filter. *)
Theorem column_order_irrelevant (headers row headers' row' : list Cell) :
  List.length headers = List.length row ->
  List.length headers' = List.length row' ->
  NoDup headers ->
  Permutation (combine headers row) (combine headers' row') ->
  (forall dest, scanRow row headers dest = scanRow row' headers' dest) /\
  (forall f, matchesFilter row headers f = matchesFilter row' headers' f) /\
  (forall (S : Type) (q : Query S),
     matchesFilters q row headers = matchesFilters q row' headers').
Proof.
  intros Hlen Hlen' Hnd Hperm.
  assert (Hlook : forall col,
             lookup_cell headers row col = lookup_cell headers' row' col).
  { intros col. rewrite !lookup_cell_assoc.
    apply assoc_cell_permutation; [assumption |].
    now rewrite map_fst_combine. }
  assert (Hfilter : forall f,
             matchesFilter row headers f = matchesFilter row' headers' f).
  { intros f. now rewrite !matchesFilter_lookup, Hlook. }
  split; [| split].
  - intros dest. unfold scanRow.
    destruct (match dest with GPtr target => target | _ => dest end);
      try reflexivity.
    apply scan_fields_ext. intros f.
    now rewrite !scan_field_lookup, Hlook.
  - exact Hfilter.
  - intros S q. unfold matchesFilters.
    rewrite !matchesFilters_loop_forallb.
    induction (filters q) as [| f fs IH]; [reflexivity |].
    cbn [forallb]. now rewrite Hfilter, IH.
Qed.

Lemma column_order_irrelevant_witness :
  scanRow [f64 30; CString "Alice"; f64 1]
    (map CString ["Age"; "Name"; "ID"]) (zero_value (TStruct Person))
  = scanRow [f64 1; CString "Alice"; f64 30]
      (map CString ["ID"; "Name"; "Age"]) (zero_value (TStruct Person)).
Proof.
  apply (column_order_irrelevant
           (map CString ["Age"; "Name"; "ID"])
           [f64 30; CString "Alice"; f64 1]
           (map CString ["ID"; "Name"; "Age"])
           [f64 1; CString "Alice"; f64 30]).
  - reflexivity.
  - reflexivity.
  - repeat constructor; cbn; intuition discriminate.
  - cbn [map combine].
    eapply perm_trans; [apply perm_swap |].
    eapply perm_trans; [apply perm_skip, perm_swap |].
    eapply perm_trans; [apply perm_swap |].
    apply Permutation_refl.
Defined.

Lemma scan_fields_nth (row headers : list Cell) (s : Struct) :
  forall s' i f,
    scan_fields row headers s = Ok s' ->
    nth_error s i = Some f ->
    exists f', scan_field row headers f = Ok f' /\ nth_error s' i = Some f'.
Proof.
  induction s as [| f0 s IH]; intros s' i f Hs Hi.
  - destruct i; discriminate.
  - cbn in Hs.
    destruct (scan_field_ok row headers f0) as (f0' & Hf0 & _).
    rewrite Hf0 in Hs.
    destruct (scan_fields_ok row headers s) as (s0 & Hs0 & _).
    rewrite Hs0 in Hs. injection Hs as <-.
    destruct i as [| i]; cbn in Hi |- *.
    + injection Hi as <-. now exists f0'.
    + now apply (IH s0 i f).
Qed.

Lemma setField_unsettable (field : Field) (value : Cell) :
  CanSet field = false -> setField field value = Ok field.
Proof. intros H. unfold setField. now rewrite H. Qed.

Lemma scanRow_total (row headers : list Cell) (fields : list StructField) :
  exists s,
    scanRow row headers (zero_value (TStruct fields)) = Ok s /\
    map field_type s = fields.
Proof.
  cbn [zero_value scanRow].
  destruct (scan_fields_ok row headers
              (map (fun ft => {| field_type := ft;
                                 field_value := zero (Kind ft) |}) fields))
    as (s & Hs & Ht).
  exists s. split; [assumption |].
  rewrite Ht, map_map. cbn [field_type]. apply map_id.
Qed.

(** X8: decoding a row into a struct never fails and never changes the
    type of a field, whatever the header and the row hold; and it leaves a
    field exactly as it was when the field is ignored, when its column is
    not in the header, when the row is too short to have a cell in that
    column, or when the field is not exported. *)
Theorem scanRow_tolerant (row headers : list Cell) (s : Struct) :
  exists s',
    scanRow row headers (GStruct s) = Ok s' /\
    scanRow row headers (GPtr (GStruct s)) = Ok s' /\
    map field_type s' = map field_type s /\
    forall i f,
      nth_error s i = Some f ->
      ignored f = true \/
      find_column headers (column_name (field_type f)) 0 = -1 \/
      len row <= find_column headers (column_name (field_type f)) 0 \/
      CanSet f = false ->
      nth_error s' i = Some f.
Proof.
  destruct (scan_fields_ok row headers s) as (s' & Hs & Ht).
  exists s'. cbn [scanRow]. repeat split; try assumption.
  intros i f Hi Hcase.
  destruct (scan_fields_nth row headers s s' i f Hs Hi) as (f' & Hf & Hi').
  rewrite Hi'. f_equal.
  unfold scan_field in Hf. fold (ignored f) in Hf.
  destruct (ignored f); [now injection Hf |].
  destruct Hcase as [Hc | [Hc | [Hc | Hc]]]; [discriminate | | |].
  - rewrite Hc in Hf. now injection Hf.
  - destruct (Z.eqb_spec
                (find_column headers (column_name (field_type f)) 0) (-1));
      [now injection Hf |].
    destruct (Z.leb_spec (len row)
                (find_column headers (column_name (field_type f)) 0));
      [now injection Hf | lia].
  - destruct (_ || _); [now injection Hf |].
    destruct (elem_at row _); [| discriminate].
    rewrite (setField_unsettable f c Hc) in Hf. now injection Hf.
Qed.

Lemma scanRow_tolerant_witness :
  scanRow [f64 7] [CString "id"; CString "Count"] (GStruct sensor)
  = Ok (combine_fields Sensor [CInt 7; CString "private"; CInt 9]).
Proof.
  destruct (scanRow_tolerant [f64 7] [CString "id"; CString "Count"] sensor)
    as (s' & Hs & _).
  rewrite Hs. vm_compute in Hs. injection Hs as <-. reflexivity.
Defined.

(** ** Coercion *)

Lemma wrap_signed_range (bits z : Z) :
  0 < bits ->
  - 2 ^ (bits - 1) <= GoInt.wrap_signed bits z < 2 ^ (bits - 1).
Proof.
  intros Hb. unfold GoInt.wrap_signed.
  assert (H2 : 2 ^ bits = 2 * 2 ^ (bits - 1)).
  { rewrite <- Z.pow_succ_r by lia. f_equal. lia. }
  pose proof (Z.mod_pos_bound (z + 2 ^ (bits - 1)) (2 ^ bits)
                ltac:(apply Z.pow_pos_nonneg; lia)).
  lia.
Qed.

Lemma wrap_unsigned_range (bits z : Z) :
  0 <= bits -> 0 <= GoInt.wrap_unsigned bits z < 2 ^ bits.
Proof.
  intros Hb. unfold GoInt.wrap_unsigned.
  apply Z.mod_pos_bound. apply Z.pow_pos_nonneg; lia.
Qed.

Lemma int_bits_pos (k : reflect.Kind) : 0 < int_bits k.
Proof. destruct k; reflexivity. Qed.

Lemma has_kind_signed (k : reflect.Kind) (z : Z) :
  In k signed_kinds ->
  has_kind (CInt z) k
  = (- 2 ^ (int_bits k - 1) <=? z) && (z <? 2 ^ (int_bits k - 1)).
Proof.
  intros Hk. cbn in Hk.
  repeat (destruct Hk as [<- | Hk]; [reflexivity |]). destruct Hk.
Qed.

Lemma has_kind_unsigned (k : reflect.Kind) (z : Z) :
  In k unsigned_kinds ->
  has_kind (CInt z) k = (0 <=? z) && (z <? 2 ^ int_bits k).
Proof.
  intros Hk. cbn in Hk.
  repeat (destruct Hk as [<- | Hk]; [reflexivity |]). destruct Hk.
Qed.

Lemma kind_cases (k : reflect.Kind) :
  In k signed_kinds \/ In k unsigned_kinds \/ In k float_kinds \/
  k = reflect.Bool \/ k = reflect.String \/ k = reflect.Interface \/
  k = reflect.Uintptr.
Proof. destruct k; cbn; tauto. Qed.

Lemma setField_signed (field : Field) (value : Cell) :
  CanSet field = true ->
  In (Kind (field_type field)) signed_kinds ->
  setField field value
  = Ok match ParseInt (fmtV value) with
       | Some i => SetInt field i
       | None => field
       end.
Proof.
  intros Hset Hk. unfold setField. rewrite Hset. cbn [negb].
  cbn in Hk.
  repeat (destruct Hk as [<- | Hk];
          [now destruct (ParseInt (fmtV value)) |]).
  destruct Hk.
Qed.

Lemma setField_unsigned (field : Field) (value : Cell) :
  CanSet field = true ->
  In (Kind (field_type field)) unsigned_kinds ->
  setField field value
  = Ok match ParseUint (fmtV value) with
       | Some i => SetUint field i
       | None => field
       end.
Proof.
  intros Hset Hk. unfold setField. rewrite Hset. cbn [negb].
  cbn in Hk.
  repeat (destruct Hk as [<- | Hk];
          [now destruct (ParseUint (fmtV value)) |]).
  destruct Hk.
Qed.

(** X9: [setField] keeps a field within its type.  On a field of kind
    string, bool, integer (of any width, signed or not), uintptr or
    interface whose value is of that kind, whatever the cell, it returns no
    error, leaves the type of the field alone and leaves a value of that
    kind: an integer that does not fit the width is truncated to it. *)
Theorem setField_keeps_kind (field : Field) (value : Cell) :
  has_kind (field_value field) (Kind (field_type field)) = true ->
  ~ In (Kind (field_type field)) float_kinds ->
  exists field',
    setField field value = Ok field' /\
    field_type field' = field_type field /\
    has_kind (field_value field') (Kind (field_type field')) = true.
Proof.
  intros Hkind Hnf.
  destruct (CanSet field) eqn:Hset;
    [| exists field; now rewrite setField_unsettable].
  destruct (kind_cases (Kind (field_type field)))
    as [Hk | [Hk | [Hk | [Hk | [Hk | [Hk | Hk]]]]]].
  - rewrite (setField_signed field value Hset Hk).
    destruct (ParseInt (fmtV value)) as [i |]; [| now exists field].
    eexists. split; [reflexivity |]. split; [reflexivity |].
    cbn [SetInt set_value field_type field_value].
    rewrite (has_kind_signed _ _ Hk).
    pose proof (wrap_signed_range (int_bits (Kind (field_type field))) i
                  (int_bits_pos _)).
    apply andb_true_iff. split; [apply Z.leb_le | apply Z.ltb_lt]; lia.
  - rewrite (setField_unsigned field value Hset Hk).
    destruct (ParseUint (fmtV value)) as [i |]; [| now exists field].
    eexists. split; [reflexivity |]. split; [reflexivity |].
    cbn [SetUint set_value field_type field_value].
    rewrite (has_kind_unsigned _ _ Hk).
    pose proof (int_bits_pos (Kind (field_type field))).
    pose proof (wrap_unsigned_range (int_bits (Kind (field_type field))) i
                  ltac:(lia)).
    apply andb_true_iff. split; [apply Z.leb_le | apply Z.ltb_lt]; lia.
  - contradiction.
  - unfold setField. rewrite Hset, Hk. cbn [negb].
    destruct (ParseBool (fmtV value)); [| now exists field].
    eexists. split; [reflexivity |]. split; [reflexivity |].
    cbn [SetBool set_value field_type field_value]. now rewrite Hk.
  - unfold setField. rewrite Hset, Hk. cbn [negb].
    eexists. split; [reflexivity |]. split; [reflexivity |].
    cbn [SetString set_value field_type field_value]. now rewrite Hk.
  - unfold setField. rewrite Hset, Hk. now exists field.
  - unfold setField. rewrite Hset, Hk. now exists field.
Qed.

Lemma setField_keeps_kind_witness :
  exists field',
    setField id_field (CString "300") = Ok field' /\
    field_type field' = field_type id_field /\
    has_kind (field_value field') (Kind (field_type field')) = true.
Proof.
  apply setField_keeps_kind; [reflexivity | cbn; intuition discriminate].
Defined.

Lemma ParseInt_out_of_range (z : Z) :
  z < - 2 ^ 63 \/ 2 ^ 63 - 1 < z -> ParseInt (FormatInt z) = None.
Proof.
  intros Hz. destruct z as [| p | p]; [cbn in Hz; lia | |].
  - unfold FormatInt, ParseInt.
    destruct (string_of_uint_head p) as (c & rest & E & Hplus & Hminus).
    rewrite E, Hplus, Hminus. cbn [orb]. rewrite <- E, parse_digits_pos.
    destruct (Z.leb_spec (Z.pos p) (2 ^ 63 - 1)); [lia | reflexivity].
  - unfold FormatInt, ParseInt.
    change (Ascii.eqb "-" "-") with true. cbn [orb].
    cbv iota. rewrite orb_true_r, parse_digits_pos.
    destruct (Z.leb_spec (Z.pos p) (2 ^ 63)); [lia | reflexivity].
Qed.

Lemma ParseUint_negative (z : Z) : z < 0 -> ParseUint (FormatInt z) = None.
Proof.
  intros Hz. destruct z as [| p | p]; try lia.
  unfold FormatInt, ParseUint, parse_digits, NilZero.uint_of_string.
  cbn [NilEmpty.uint_of_string].
  now destruct (NilEmpty.uint_of_string _).
Qed.

Lemma ParseUint_out_of_range (z : Z) :
  2 ^ 64 - 1 < z -> ParseUint (FormatInt z) = None.
Proof.
  intros Hz. destruct z as [| p | p]; try (cbn in Hz; lia).
  unfold FormatInt, ParseUint. rewrite parse_digits_pos.
  destruct (Z.leb_spec (Z.pos p) (2 ^ 64 - 1)); [lia | reflexivity].
Qed.

(** X10: what an integer field receives from a cell whose text is the
    decimal numeral of [z] (an integer cell, or a string of digits).  A
    signed field takes [z] wrapped to its width when [z] is an [int64] and
    is left as it was otherwise; an unsigned field takes [z] modulo its
    width when [z] is a [uint64], and is left as it was when [z] is
    negative or beyond. *)
Theorem setField_integer (field : Field) (value : Cell) (z : Z) :
  CanSet field = true ->
  fmtV value = FormatInt z ->
  let bits := int_bits (Kind (field_type field)) in
  (In (Kind (field_type field)) signed_kinds ->
     (- 2 ^ 63 <= z <= 2 ^ 63 - 1 ->
      setField field value
      = Ok (set_value field (CInt (GoInt.wrap_signed bits z)))) /\
     (- 2 ^ (bits - 1) <= z < 2 ^ (bits - 1) ->
      setField field value = Ok (set_value field (CInt z))) /\
     (z < - 2 ^ 63 \/ 2 ^ 63 - 1 < z -> setField field value = Ok field)) /\
  (In (Kind (field_type field)) unsigned_kinds ->
     (0 <= z <= 2 ^ 64 - 1 ->
      setField field value = Ok (set_value field (CInt (z mod 2 ^ bits)))) /\
     (0 <= z < 2 ^ bits ->
      setField field value = Ok (set_value field (CInt z))) /\
     (z < 0 \/ 2 ^ 64 - 1 < z -> setField field value = Ok field)).
Proof.
  intros Hset Htext bits.
  pose proof (int_bits_pos (Kind (field_type field))) as Hpos.
  assert (Hle : bits <= 64) by (unfold bits; destruct (Kind _); cbn; lia).
  assert (Hmono : 2 ^ (bits - 1) <= 2 ^ 63)
    by (apply Z.pow_le_mono_r; unfold bits in *; lia).
  assert (Hmono' : 2 ^ bits <= 2 ^ 64)
    by (apply Z.pow_le_mono_r; unfold bits in *; lia).
  split; intros Hk.
  - rewrite (setField_signed field value Hset Hk), Htext.
    split; [| split].
    + intros Hz. now rewrite ParseInt_FormatInt by assumption.
    + intros Hz. rewrite ParseInt_FormatInt by lia.
      unfold SetInt. fold bits. now rewrite wrap_signed_small by (fold bits; lia).
    + intros Hz. now rewrite ParseInt_out_of_range.
  - rewrite (setField_unsigned field value Hset Hk), Htext.
    split; [| split].
    + intros Hz. now rewrite ParseUint_FormatInt by assumption.
    + intros Hz. rewrite ParseUint_FormatInt by lia.
      unfold SetUint. fold bits. now rewrite wrap_unsigned_small.
    + intros [Hz | Hz];
        [now rewrite ParseUint_negative | now rewrite ParseUint_out_of_range].
Qed.

Lemma setField_integer_witness :
  let id := {| field_type := {| Name := "ID"; Tag := "id";
                                Kind := reflect.Int8;
       Defined := None |};
               field_value := CInt 5 |} in
  let count := {| field_type := {| Name := "Count"; Tag := "";
                                   Kind := reflect.Uint16;
       Defined := None |};
                  field_value := CInt 9 |} in
  setField id (CString "300") = Ok (set_value id (CInt 44))
  /\ setField id (CInt (-128)) = Ok (set_value id (CInt (-128)))
  /\ setField count (CInt (-1)) = Ok count.
Proof.
  cbv zeta.
  match goal with
  | |- setField ?id _ = _ /\ _ /\ setField ?count _ = _ =>
      destruct (setField_integer id (CString "300") 300 eq_refl eq_refl)
        as [H1 _];
      destruct (setField_integer id (CInt (-128)) (-128) eq_refl eq_refl)
        as [H2 _];
      destruct (setField_integer count (CInt (-1)) (-1) eq_refl eq_refl)
        as [_ H3]
  end.
  split.
  { destruct H1 as [H _]; [cbn; tauto |]. apply H. cbn. lia. }
  split.
  { destruct H2 as (_ & H & _); [cbn; tauto |]. apply H. cbn. lia. }
  destruct H3 as (_ & _ & H); [cbn; tauto |]. apply H. left. lia.
Defined.

(** ** Queries *)

Lemma scan_rows_struct (rows : Grid) (headers : list Cell)
  (fields : list StructField) :
  forall acc,
    exists decoded,
      scan_rows rows headers (TStruct fields) acc
      = Ok (acc ++ map GStruct decoded) /\
      Forall2 (fun row s =>
                 scanRow row headers (zero_value (TStruct fields)) = Ok s /\
                 map field_type s = fields)
        rows decoded.
Proof.
  induction rows as [| row rows IH]; intros acc.
  - exists []. cbn. now rewrite app_nil_r.
  - cbn [scan_rows].
    destruct (scanRow_total row headers fields) as (s & Hs & Ht).
    rewrite Hs.
    destruct (IH (acc ++ [GStruct s])) as (decoded & Hd & Hall).
    exists (s :: decoded). split.
    + rewrite Hd, <- app_assoc. reflexivity.
    + constructor; [now split | assumption].
Qed.

Lemma scan_rows_not_struct (rows : Grid) (headers : list Cell) (ty : GoType)
  (acc : list GoValue) :
  is_struct_type ty = false -> rows <> [] ->
  scan_rows rows headers ty acc = Err "dest must be a struct".
Proof.
  intros Hty Hrows. destruct rows as [| row rows]; [congruence |].
  destruct ty; [reflexivity | discriminate | reflexivity].
Qed.

Lemma Get_on_grid {S : Type} (q : Query S) (dest : GoValue) (w : World S)
  (headers : list Cell) (rows : Grid) (s' : S) :
  Read (client (db (table q))) (name (table q)) (client_state w)
  = (Ok (headers :: rows), s') ->
  rows <> [] ->
  Get q dest w
  = (scanIntoSlice (applyLimit q (applyFilters q rows headers)) headers dest,
     after w (ReadCall (name (table q))) s').
Proof.
  intros Hread Hrows. unfold Get, bind, client_Read.
  rewrite call_eq, Hread. cbn [fst snd].
  assert (Hlen : (len (headers :: rows) <? 2) = false).
  { apply Z.ltb_ge. destruct rows; [congruence |].
    unfold len. cbn [List.length]. lia. }
  rewrite Hlen. unfold applySort.
  now destruct (negb (orderBy q =? "")%string).
Qed.

(** X11: what [Get] delivers.  On a grid with a header and data rows, into
    a pointer to a slice of structs, [Get] reads once, returns no error,
    and appends to what the slice held one record per row that survives
    the filters and the limit, in the order of the rows: the record that
    [scanRow] decodes from that row into a fresh struct of the element
    type. *)
Theorem Get_decodes {S : Type} (q : Query S) (w : World S)
  (headers : list Cell) (rows : Grid) (s' : S)
  (fields : list StructField) (elems : list GoValue) :
  Read (client (db (table q))) (name (table q)) (client_state w)
  = (Ok (headers :: rows), s') ->
  rows <> [] ->
  exists decoded,
    Get q (GPtr (GSlice (TStruct fields) elems)) w
    = (Ok (GPtr (GSlice (TStruct fields) (elems ++ map GStruct decoded))),
       after w (ReadCall (name (table q))) s') /\
    Forall2 (fun row s =>
               scanRow row headers (zero_value (TStruct fields)) = Ok s /\
               map field_type s = fields)
      (applyLimit q (applyFilters q rows headers)) decoded.
Proof.
  intros Hread Hrows.
  rewrite (Get_on_grid q _ w headers rows s' Hread Hrows).
  destruct (scan_rows_struct (applyLimit q (applyFilters q rows headers))
              headers fields elems) as (decoded & Hd & Hall).
  exists decoded. split; [| exact Hall].
  cbn [scanIntoSlice]. now rewrite Hd.
Qed.

Lemma Get_decodes_witness :
  exists decoded,
    Get (Limit (Where (NewQuery (mock_table people)) "Age" ">=" (CInt 28)) 1)
      (GPtr (GSlice (TStruct Person) [person 9 "Zed" 99])) start
    = (Ok (GPtr (GSlice (TStruct Person)
                   ([person 9 "Zed" 99] ++ map GStruct decoded))),
       after start (ReadCall "Users") tt) /\
    Forall2 (fun row s =>
               scanRow row (hd [] people) (zero_value (TStruct Person)) = Ok s /\
               map field_type s = Person)
      (applyLimit
         (Limit (Where (NewQuery (mock_table people)) "Age" ">=" (CInt 28)) 1)
         (applyFilters
            (Limit (Where (NewQuery (mock_table people)) "Age" ">=" (CInt 28)) 1)
            (tl people) (hd [] people)))
      decoded.
Proof.
  apply (Get_decodes
           (Limit (Where (NewQuery (mock_table people)) "Age" ">=" (CInt 28)) 1)
           start (hd [] people) (tl people) tt Person).
  - reflexivity.
  - discriminate.
Defined.

(** X12: how [Get] treats its destination.  On a grid with a header and
    data rows: a destination that is not a pointer to a slice is refused
    with "dest must be a pointer to a slice"; a slice whose elements are
    not structs is refused with "dest must be a struct" as soon as one row
    survives the filters and the limit, and accepted, and left as it was,
    when none does.  The read is the only call in each case. *)
Theorem Get_destination {S : Type} (q : Query S) (w : World S)
  (headers : list Cell) (rows : Grid) (s' : S) :
  Read (client (db (table q))) (name (table q)) (client_state w)
  = (Ok (headers :: rows), s') ->
  rows <> [] ->
  let w' := after w (ReadCall (name (table q))) s' in
  let survivors := applyLimit q (applyFilters q rows headers) in
  (forall dest,
     (forall ty elems, dest <> GPtr (GSlice ty elems)) ->
     Get q dest w = (Err "dest must be a pointer to a slice", w')) /\
  (forall ty elems,
     is_struct_type ty = false -> survivors <> [] ->
     Get q (GPtr (GSlice ty elems)) w = (Err "dest must be a struct", w')) /\
  (forall ty elems,
     survivors = [] ->
     Get q (GPtr (GSlice ty elems)) w = (Ok (GPtr (GSlice ty elems)), w')).
Proof.
  intros Hread Hrows w' survivors.
  split; [| split].
  - intros dest Hshape.
    rewrite (Get_on_grid q dest w headers rows s' Hread Hrows).
    f_equal. destruct dest as [c | s | | target | ty elems]; try reflexivity.
    destruct target as [c | s | | target | ty elems]; try reflexivity.
    now elim (Hshape ty elems).
  - intros ty elems Hty Hsurv.
    rewrite (Get_on_grid q _ w headers rows s' Hread Hrows).
    f_equal. cbn [scanIntoSlice]. fold survivors.
    now rewrite scan_rows_not_struct.
  - intros ty elems Hsurv.
    rewrite (Get_on_grid q _ w headers rows s' Hread Hrows).
    f_equal. fold survivors. rewrite Hsurv. reflexivity.
Qed.

Lemma Get_destination_witness :
  let q := Where (NewQuery (mock_table people)) "Age" ">" (CInt 99) in
  let ints := GPtr (GSlice (TScalar reflect.Int) []) in
  Get q (GCell (CInt 0)) start
  = (Err "dest must be a pointer to a slice", after start (ReadCall "Users") tt)
  /\ Get (NewQuery (mock_table people)) ints start
     = (Err "dest must be a struct", after start (ReadCall "Users") tt)
  /\ Get q ints start = (Ok ints, after start (ReadCall "Users") tt).
Proof.
  cbv zeta.
  destruct (Get_destination
              (Where (NewQuery (mock_table people)) "Age" ">" (CInt 99))
              start (hd [] people) (tl people) tt eq_refl ltac:(discriminate))
    as (H1 & _ & H3).
  destruct (Get_destination (NewQuery (mock_table people))
              start (hd [] people) (tl people) tt eq_refl ltac:(discriminate))
    as (_ & H2 & _).
  split; [apply H1; discriminate |].
  split; [apply H2; [reflexivity | discriminate] |].
  apply H3. reflexivity.
Defined.

(** X13: a failed read.  When the client's [Read] fails, [Get],
    [UpdateWhere] and [DeleteWhere] return its error behind the prefix
    "failed to read data: " and call nothing else. *)
Theorem read_failure {S : Type} (t : Table S) (w : World S) (e : string)
  (s' : S) :
  Read (client (db t)) (name t) (client_state w) = (Err e, s') ->
  let w' := after w (ReadCall (name t)) s' in
  let err := ("failed to read data: " ++ e)%string in
  (forall q dest, table q = t -> Get q dest w = (Err err, w')) /\
  (forall column operator value record,
     UpdateWhere t column operator value record w = (Err err, w')) /\
  (forall column operator value,
     DeleteWhere t column operator value w = (Err err, w')).
Proof.
  intros Hread w' err.
  repeat split; intros.
  - subst t. unfold Get, bind, client_Read. rewrite call_eq, Hread.
    reflexivity.
  - unfold UpdateWhere, bind, client_Read. rewrite call_eq, Hread.
    reflexivity.
  - unfold DeleteWhere, bind, client_Read. rewrite call_eq, Hread.
    reflexivity.
Qed.

Lemma read_failure_witness :
  Get (NewQuery broken_table) (GPtr (GSlice (TStruct Person) [])) start
  = (Err "failed to read data: quota exceeded",
     after start (ReadCall "Users") tt)
  /\ DeleteWhere broken_table "Age" ">" (CInt 1) start
     = (Err "failed to read data: quota exceeded",
        after start (ReadCall "Users") tt).
Proof.
  destruct (read_failure broken_table start "quota exceeded" tt eq_refl)
    as (HGet & _ & HDel).
  split; [apply HGet; reflexivity | apply HDel].
Defined.

(** ** Insert and UpdateWhere *)

Lemma struct_slice_loop_ok (elems : list GoValue) (rows : Grid) :
  Forall2 (fun elem row => structToValues elem = Ok row) elems rows ->
  struct_slice_loop elems = Ok rows.
Proof.
  induction 1 as [| elem row elems rows Hrow _ IH]; [reflexivity |].
  cbn [struct_slice_loop]. now rewrite Hrow, IH.
Qed.

Lemma struct_slice_loop_first_failure (pre post : list GoValue)
  (bad : GoValue) :
  Forall (fun elem => exists row, structToValues elem = Ok row) pre ->
  (forall e, structToValues bad = Err e ->
             struct_slice_loop (pre ++ bad :: post) = Err e) /\
  (forall p, structToValues bad = Panic p ->
             struct_slice_loop (pre ++ bad :: post) = Panic p).
Proof.
  induction 1 as [| elem pre (row & Hrow) _ (IHe & IHp)].
  - split; intros x Hx; cbn [app struct_slice_loop]; now rewrite Hx.
  - split; intros x Hx; cbn [app struct_slice_loop]; rewrite Hrow.
    + now rewrite (IHe x Hx).
    + now rewrite (IHp x Hx).
Qed.

(** X14: [Insert].  A value that is not a slice is refused with "failed to
    convert records: records must be a slice" and nothing is called.  When
    every element of the slice encodes, the rows are appended in one call,
    in the order of the slice, at the range made of the table's name and
    "!A1", and the answer of the client is returned; an empty slice still
    makes the call, with no rows.  When an element does not encode, the
    failure of the first such element ends the insert, an error behind the
    prefix "failed to convert records: ", a panic as it is, and nothing is
    called: rows before it are not appended either. *)
Theorem Insert_spec {S : Type} (t : Table S) (w : World S) :
  (forall records,
     (forall ty elems, records <> GSlice ty elems) ->
     Insert t records w
     = (Err "failed to convert records: records must be a slice", w)) /\
  (forall ty elems rows,
     Forall2 (fun elem row => structToValues elem = Ok row) elems rows ->
     let range_ := (name t ++ "!A1")%string in
     let answer := Append (client (db t)) range_ rows (client_state w) in
     Insert t (GSlice ty elems) w
     = (fst answer, after w (AppendCall range_ rows) (snd answer))) /\
  (forall ty pre bad post,
     Forall (fun elem => exists row, structToValues elem = Ok row) pre ->
     (forall e, structToValues bad = Err e ->
        Insert t (GSlice ty (pre ++ bad :: post)) w
        = (Err ("failed to convert records: " ++ e)%string, w)) /\
     (forall p, structToValues bad = Panic p ->
        Insert t (GSlice ty (pre ++ bad :: post)) w = (Panic p, w))).
Proof.
  split; [| split].
  - intros records Hshape. unfold Insert.
    destruct records as [c | s | | target | ty elems]; try reflexivity.
    now elim (Hshape ty elems).
  - intros ty elems rows Hrows range_ answer. unfold Insert.
    cbn [structSliceToValues]. rewrite (struct_slice_loop_ok _ _ Hrows).
    unfold client_Append. now rewrite call_eq.
  - intros ty pre bad post Hpre.
    destruct (struct_slice_loop_first_failure pre post bad Hpre) as (He & Hp).
    split; intros x Hx; unfold Insert; cbn [structSliceToValues].
    + now rewrite (He x Hx).
    + now rewrite (Hp x Hx).
Qed.

Lemma Insert_spec_witness :
  Insert (mock_table people) (person 4 "Dan" 41) start
  = (Err "failed to convert records: records must be a slice", start)
  /\ Insert (mock_table people)
       (GSlice (TStruct Person) [person 4 "Dan" 41; person 5 "Eve" 22]) start
     = (Ok tt,
        after start
          (AppendCall "Users!A1"
             [[CInt 4; CString "Dan"; CInt 41];
              [CInt 5; CString "Eve"; CInt 22]]) tt)
  /\ Insert (mock_table people)
       (GSlice (TStruct Person) [person 4 "Dan" 41; GCell (CInt 7);
                                 person 5 "Eve" 22]) start
     = (Err "failed to convert records: record must be a struct", start)
  /\ Insert (mock_table people)
       (GSlice (TStruct Hidden) [hidden]) start
     = (Panic unexported_msg, start).
Proof.
  destruct (Insert_spec (mock_table people) start) as (H1 & H2 & H3).
  split; [apply H1; discriminate |].
  split.
  { apply (H2 (TStruct Person)
              [person 4 "Dan" 41; person 5 "Eve" 22]
              [[CInt 4; CString "Dan"; CInt 41];
               [CInt 5; CString "Eve"; CInt 22]]).
    repeat constructor. }
  split.
  - destruct (H3 (TStruct Person) [person 4 "Dan" 41] (GCell (CInt 7))
                [person 5 "Eve" 22]) as (He & _).
    + constructor; [| constructor]. eexists. reflexivity.
    + apply He. reflexivity.
  - destruct (H3 (TStruct Hidden) [] hidden []) as (_ & Hp).
    + constructor.
    + apply Hp. reflexivity.
Defined.

Lemma UpdateWhere_writes_calls {S : Type} (t : Table S) (endCol : string)
  (values : list Cell) (indices : list Z) :
  forall w : World S,
    exists k : nat,
      (k <= List.length indices)%nat /\
      calls (snd (UpdateWhere_writes t indices endCol values w))
      = calls w ++ map (write_of t endCol values) (firstn k indices) /\
      match fst (UpdateWhere_writes t indices endCol values w) with
      | Ok _ => k = List.length indices
      | Err e =>
          exists p e',
            nth_error indices (Nat.pred k) = Some p /\ (0 < k)%nat /\
            e = ("failed to update row " ++ FormatInt p ++ ": " ++ e')%string
      | Panic _ => (0 < k)%nat
      end.
Proof.
  induction indices as [| idx rest IH]; intros w.
  - exists 0%nat. cbn. rewrite app_nil_r. auto.
  - cbn [UpdateWhere_writes]. unfold bind, client_Write. rewrite call_eq.
    destruct (Write (client (db t)) (row_range (name t) (idx + 2) endCol)
                [values] (client_state w)) as [r s'] eqn:E.
    cbn [fst snd]. destruct r as [u | e | p].
    + destruct (IH (after w (WriteCall (row_range (name t) (idx + 2) endCol)
                               [values]) s'))
        as (k & Hk & Hc & Hr).
      exists (Datatypes.S k). split; [cbn; lia |]. split.
      * rewrite Hc. cbn [after calls firstn map].
        rewrite <- app_assoc. reflexivity.
      * destruct (fst (UpdateWhere_writes t rest endCol values _))
          as [u' | e | p].
        -- cbn. now f_equal.
        -- destruct Hr as (p & e' & Hn & Hpos & He).
           exists p, e'. split; [| split; [lia | assumption]].
           destruct k as [| k']; [lia |]. exact Hn.
        -- lia.
    + exists 1%nat. split; [cbn; lia |]. split; [reflexivity |].
      exists idx, e. split; [reflexivity |]. split; [lia |].
      unfold wrap_error. now rewrite string_app_assoc.
    + exists 1%nat. split; [cbn; lia |]. split; [reflexivity | cbn; lia].
Qed.

Lemma UpdateWhere_on_grid {S : Type} (t : Table S)
  (column operator : string) (value : Cell) (record : GoValue) (w : World S)
  (headers : list Cell) (rows : Grid) (s1 : S) :
  Read (client (db t)) (name t) (client_state w) = (Ok (headers :: rows), s1) ->
  rows <> [] ->
  let positions :=
    matching_positions rows headers
      {| Column := column; Operator := operator; Value := value |} in
  UpdateWhere t column operator value record w
  = match positions with
    | [] => (Ok tt, after w (ReadCall (name t)) s1)
    | _ :: _ =>
        match structToValues record with
        | Err e => (Err (wrap_error "failed to convert record" e),
                    after w (ReadCall (name t)) s1)
        | Panic p => (Panic p, after w (ReadCall (name t)) s1)
        | Ok values =>
            UpdateWhere_writes t positions
              (columnIndexToLetter (len values - 1)) values
              (after w (ReadCall (name t)) s1)
        end
    end.
Proof.
  intros Hread Hrows positions.
  unfold UpdateWhere, bind, client_Read. rewrite call_eq, Hread.
  cbn [fst snd].
  assert (Hlen : (len (headers :: rows) <? 2) = false).
  { apply Z.ltb_ge. destruct rows; [congruence |].
    unfold len. cbn [List.length]. lia. }
  rewrite Hlen, UpdateWhere_indices_positions.
  rewrite (map_ext (fun p => p + 0) (fun p => p)) by (intros; lia).
  rewrite map_id. fold positions.
  destruct positions as [| p ps]; [reflexivity |].
  assert (Hne : (len (p :: ps) =? 0) = false).
  { apply Z.eqb_neq. unfold len. cbn [List.length]. lia. }
  rewrite Hne.
  destruct (structToValues record); reflexivity.
Qed.

Lemma UpdateWhere_writes_accepted {S : Type} (t : Table S) (endCol : string)
  (values : list Cell) (done : list Z) :
  forall (rest : list Z) (w : World S) (s2 : S),
    accepted t endCol values done (client_state w) = Some s2 ->
    UpdateWhere_writes t (done ++ rest) endCol values w
    = UpdateWhere_writes t rest endCol values
        {| client_state := s2;
           calls := calls w ++ map (write_of t endCol values) done |}.
Proof.
  induction done as [| p done IH]; intros rest w s2 Hacc.
  - cbn in Hacc. injection Hacc as <-. cbn [app map].
    rewrite app_nil_r. now destruct w.
  - cbn [accepted] in Hacc. cbn [app UpdateWhere_writes].
    unfold bind, client_Write. rewrite call_eq.
    destruct (Write (client (db t)) (row_range (name t) (p + 2) endCol)
                [values] (client_state w)) as [r s'].
    cbn [fst snd]. destruct r as [u | e | m]; try discriminate Hacc.
    rewrite (IH rest (after w (WriteCall (row_range (name t) (p + 2) endCol)
                                 [values]) s') s2 Hacc).
    cbn [after calls map]. unfold write_of at 2.
    now rewrite <- List.app_assoc.
Qed.

(** X15: [UpdateWhere] on a grid with a header and data rows.  The rows to
    update are the data rows the filter matches, by position from 0, in
    increasing order.  When there is none, the update succeeds after the
    read alone, and the record is not looked at, so that a value that is
    no struct passes.  Otherwise a record that does not encode ends the
    update with "failed to convert record: " and its error (or with its
    panic), and no write.  Otherwise the record is written over the
    matched rows one call each, in that order, the row at position [p] at
    sheet row [p + 2] from column A to the column of the last value.  When
    the client accepts every write the update returns no error and the
    client is left in the state after the last write.  When the client
    accepts the writes of the positions before [p] and refuses that of
    [p], the update returns "failed to update row [p]: " and the error of
    the client, in the state the refusal left: the writes before stay,
    and the rows after [p] are not written.  A panic of the client ends
    the update the same way. *)
Theorem UpdateWhere_spec {S : Type} (t : Table S)
  (column operator : string) (value : Cell) (record : GoValue) (w : World S)
  (headers : list Cell) (rows : Grid) (s1 : S) :
  Read (client (db t)) (name t) (client_state w) = (Ok (headers :: rows), s1) ->
  rows <> [] ->
  let positions :=
    matching_positions rows headers
      {| Column := column; Operator := operator; Value := value |} in
  let w1 := after w (ReadCall (name t)) s1 in
  let outcome := UpdateWhere t column operator value record w in
  StronglySorted Z.lt positions /\
  (positions = [] -> outcome = (Ok tt, w1)) /\
  (positions <> [] ->
     (forall e,
        structToValues record = Err e ->
        outcome = (Err ("failed to convert record: " ++ e)%string, w1)) /\
     (forall m, structToValues record = Panic m -> outcome = (Panic m, w1))) /\
  (forall values,
     positions <> [] -> structToValues record = Ok values ->
     let endCol := columnIndexToLetter (len values - 1) in
     let range_ := fun p => row_range (name t) (p + 2) endCol in
     let writes := map (fun p => WriteCall (range_ p) [values]) in
     (forall s2,
        accepted t endCol values positions s1 = Some s2 ->
        outcome
        = (Ok tt,
           {| client_state := s2; calls := calls w1 ++ writes positions |})) /\
     (forall done p rest s2 answer s3,
        positions = done ++ p :: rest ->
        accepted t endCol values done s1 = Some s2 ->
        Write (client (db t)) (range_ p) [values] s2 = (answer, s3) ->
        (forall e,
           answer = Err e ->
           outcome
           = (Err ("failed to update row " ++ FormatInt p ++ ": " ++ e)%string,
              {| client_state := s3;
                 calls := calls w1 ++ writes (done ++ [p]) |})) /\
        (forall m,
           answer = Panic m ->
           outcome
           = (Panic m,
              {| client_state := s3;
                 calls := calls w1 ++ writes (done ++ [p]) |})))).
Proof.
  intros Hread Hrows positions w1 outcome.
  pose proof (UpdateWhere_on_grid t column operator value record w
                headers rows s1 Hread Hrows) as H.
  cbv zeta in H. fold positions in H. fold outcome in H. fold w1 in H.
  split; [apply matching_positions_ascending |].
  split; [| split].
  - intros Hnone. now rewrite H, Hnone.
  - intros Hsome. split; intros x Hx; rewrite H, Hx;
      (destruct positions; [congruence | reflexivity]).
  - intros values Hsome Hv endCol range_ writes.
    assert (Hout : outcome = UpdateWhere_writes t positions endCol values w1).
    { rewrite H, Hv. destruct positions; [congruence | reflexivity]. }
    split.
    + intros s2 Hacc. rewrite Hout.
      rewrite <- (app_nil_r positions) at 1.
      now rewrite (UpdateWhere_writes_accepted t endCol values positions []
                     w1 s2 Hacc).
    + intros done p rest s2 answer s3 Hsplit Hacc Hw.
      assert (Hgo : outcome
                    = UpdateWhere_writes t (p :: rest) endCol values
                        {| client_state := s2;
                           calls := calls w1 ++ writes done |}).
      { rewrite Hout, Hsplit.
        now apply (UpdateWhere_writes_accepted t endCol values done
                     (p :: rest) w1 s2). }
      assert (Hcalls : writes (done ++ [p])
                       = writes done ++ [WriteCall (range_ p) [values]]).
      { unfold writes. now rewrite map_app. }
      split; intros x ->; rewrite Hgo, Hcalls;
        cbn [UpdateWhere_writes]; unfold bind, client_Write;
        rewrite call_eq; cbn [client_state];
        fold (range_ p); rewrite Hw; cbn [fst snd]; unfold ret, after;
        cbn [calls]; rewrite <- app_assoc; reflexivity.
Qed.

Lemma UpdateWhere_spec_witness :
  UpdateWhere (mock_table people) "Name" "=" (CString "Zed") (GCell (CInt 0))
    start
  = (Ok tt, after start (ReadCall "Users") tt)
  /\ UpdateWhere (mock_table people) "Name" "=" (CString "Bob")
       (GCell (CInt 0)) start
     = (Err "failed to convert record: record must be a struct",
        after start (ReadCall "Users") tt)
  /\ UpdateWhere (mock_table people) "Name" "!=" (CString "Bob")
       (person 0 "x" 1) start
     = (Ok tt,
        {| client_state := tt;
           calls :=
             [ReadCall "Users";
              WriteCall "Users!A2:C2" [[CInt 0; CString "x"; CInt 1]];
              WriteCall "Users!A4:C4" [[CInt 0; CString "x"; CInt 1]]] |})
  /\ UpdateWhere flaky_table "Name" "!=" (CString "Zed") (person 0 "x" 1)
       flaky_start
     = (Err "failed to update row 2: write refused",
        {| client_state := 2%nat;
           calls :=
             [ReadCall "Users";
              WriteCall "Users!A2:C2" [[CInt 0; CString "x"; CInt 1]];
              WriteCall "Users!A3:C3" [[CInt 0; CString "x"; CInt 1]];
              WriteCall "Users!A4:C4" [[CInt 0; CString "x"; CInt 1]]] |}).
Proof.
  pose proof (UpdateWhere_spec (mock_table people) "Name" "=" (CString "Zed")
                (GCell (CInt 0)) start (hd [] people) (tl people) tt eq_refl
                ltac:(discriminate)) as H1.
  pose proof (UpdateWhere_spec (mock_table people) "Name" "=" (CString "Bob")
                (GCell (CInt 0)) start (hd [] people) (tl people) tt eq_refl
                ltac:(discriminate)) as H2.
  pose proof (UpdateWhere_spec (mock_table people) "Name" "!=" (CString "Bob")
                (person 0 "x" 1) start (hd [] people) (tl people) tt eq_refl
                ltac:(discriminate)) as H3.
  pose proof (UpdateWhere_spec flaky_table "Name" "!=" (CString "Zed")
                (person 0 "x" 1) flaky_start (hd [] people) (tl people) 0%nat
                eq_refl ltac:(discriminate)) as H4.
  cbv zeta in H1, H2, H3, H4.
  destruct H1 as (_ & H1 & _). destruct H2 as (_ & _ & H2 & _).
  destruct H3 as (_ & _ & _ & H3). destruct H4 as (_ & _ & _ & H4).
  split; [apply H1; vm_compute; reflexivity |].
  split.
  { destruct (H2 ltac:(vm_compute; discriminate)) as (He & _).
    apply He. reflexivity. }
  split.
  - destruct (H3 [CInt 0; CString "x"; CInt 1]
                ltac:(vm_compute; discriminate) eq_refl) as (Hok & _).
    apply (Hok tt). vm_compute. reflexivity.
  - destruct (H4 [CInt 0; CString "x"; CInt 1]
                ltac:(vm_compute; discriminate) eq_refl) as (_ & Hrefused).
    destruct (Hrefused [0; 1] 2 [] 2%nat (Err "write refused") 2%nat)
      as (He & _).
    + vm_compute. reflexivity.
    + vm_compute. reflexivity.
    + reflexivity.
    + apply He. reflexivity.
Defined.

(** ** The three ways to select rows, and the calls each operation makes *)

Lemma elem_at_middle {A : Type} (pre post : list A) (x : A) :
  elem_at (pre ++ x :: post) (len pre) = Some x.
Proof.
  unfold elem_at, len.
  destruct (Z.ltb_spec (Z.of_nat (List.length pre)) 0); [lia |].
  rewrite Nat2Z.id, nth_error_app2 by lia.
  now rewrite Nat.sub_diag.
Qed.

Lemma UpdateWhere_indices_rows (rows : Grid) (headers : list Cell)
  (filter : Filter) :
  forall pre : Grid,
    map (elem_at (pre ++ rows))
      (UpdateWhere_indices rows headers filter (len pre))
    = map Some (List.filter (fun row => matchesFilter row headers filter) rows).
Proof.
  induction rows as [| row rows IH]; intros pre; [reflexivity |].
  cbn [UpdateWhere_indices List.filter].
  assert (Hnext : len pre + 1 = len (pre ++ [row])).
  { unfold len. rewrite length_app. cbn [List.length]. lia. }
  assert (Hsplit : pre ++ row :: rows = (pre ++ [row]) ++ rows).
  { now rewrite <- app_assoc. }
  destruct (matchesFilter row headers filter).
  - cbn [map]. rewrite elem_at_middle. f_equal.
    rewrite Hnext, Hsplit. apply IH.
  - rewrite Hnext, Hsplit. apply IH.
Qed.

Lemma DeleteWhere_indices_shift (rows : Grid) (headers : list Cell)
  (filter : Filter) :
  forall i,
    DeleteWhere_indices rows headers filter i
    = map (fun p => p + 1) (UpdateWhere_indices rows headers filter i).
Proof.
  induction rows as [| row rows IH]; intros i; [reflexivity |].
  cbn [DeleteWhere_indices UpdateWhere_indices].
  destruct (matchesFilter row headers filter); cbn [map]; now rewrite IH.
Qed.

(** X16: one condition selects the same rows in the three operations that
    take one.  The rows a query with the single condition keeps are, in
    order, the rows at the positions [UpdateWhere] collects for that
    condition, and the indices [DeleteWhere] collects are those positions
    plus one. *)
Theorem selection_agreement {S : Type} (t : Table S)
  (column operator : string) (value : Cell) (rows : Grid)
  (headers : list Cell) :
  let filter := {| Column := column; Operator := operator; Value := value |} in
  let q := Where (NewQuery t) column operator value in
  map (elem_at rows) (UpdateWhere_indices rows headers filter 0)
  = map Some (applyFilters q rows headers) /\
  DeleteWhere_indices rows headers filter 0
  = map (fun p => p + 1) (UpdateWhere_indices rows headers filter 0).
Proof.
  intros filter q. split.
  - rewrite applyFilters_filter. cbn [q Where NewQuery filters app].
    pose proof (UpdateWhere_indices_rows rows headers filter []) as H.
    cbn [app] in H. change (len (@nil (list Cell))) with 0 in H. rewrite H.
    f_equal. apply filter_ext. intros row. cbn [forallb].
    now rewrite andb_true_r.
  - apply DeleteWhere_indices_shift.
Qed.

Lemma forallb_is_Write {S : Type} (t : Table S) (endCol : string)
  (values : list Cell) (l : list Z) :
  forallb is_Write (map (write_of t endCol values) l) = true.
Proof. induction l; [reflexivity | exact IHl]. Qed.

(** X17: the calls each operation makes, whatever the arguments, the grid
    and the answers of the client.  [Get] makes one call, a read of the
    sheet, and never writes.  [Insert] makes no call or one append at the
    range of the table's name and "!A1"; [Update] no call or one write of
    a single row; [Delete] no call or one deletion of a single index.
    [UpdateWhere] reads the sheet once and then only writes;
    [DeleteWhere] reads the sheet once and then makes no call or one
    deletion. *)
Theorem call_discipline {S : Type} (t : Table S) (w : World S) :
  (forall (q : Query S) dest,
     calls (snd (Get q dest w)) = calls w ++ [ReadCall (name (table q))]) /\
  (forall records,
     exists rest,
       calls (snd (Insert t records w)) = calls w ++ rest /\
       (rest = [] \/
        exists rows, rest = [AppendCall (name t ++ "!A1")%string rows])) /\
  (forall rowIndex record,
     exists rest,
       calls (snd (Update t rowIndex record w)) = calls w ++ rest /\
       (rest = [] \/ exists range_ values, rest = [WriteCall range_ [values]])) /\
  (forall rowIndex,
     exists rest,
       calls (snd (Delete t rowIndex w)) = calls w ++ rest /\
       (rest = [] \/ exists i, rest = [DeleteRowsCall (name t) [i]])) /\
  (forall column operator value record,
     exists writes,
       calls (snd (UpdateWhere t column operator value record w))
       = calls w ++ ReadCall (name t) :: writes /\
       forallb is_Write writes = true) /\
  (forall column operator value,
     exists rest,
       calls (snd (DeleteWhere t column operator value w))
       = calls w ++ ReadCall (name t) :: rest /\
       (rest = [] \/ exists indices, rest = [DeleteRowsCall (name t) indices])).
Proof.
  repeat split.
  - intros q dest. unfold Get, bind, client_Read. rewrite call_eq.
    destruct (Read _ _ _) as [r s1]. cbn [fst snd].
    destruct r as [data | e | p]; try reflexivity.
    destruct (len data <? 2); [reflexivity |].
    destruct data; reflexivity.
  - intros records. unfold Insert.
    destruct (structSliceToValues records) as [rows | e | p].
    + unfold client_Append. rewrite call_eq. eexists. split; [reflexivity |].
      right. now eexists.
    + exists []. rewrite app_nil_r. auto.
    + exists []. rewrite app_nil_r. auto.
  - intros rowIndex record. unfold Update.
    destruct (rowIndex <? 0); [exists []; rewrite app_nil_r; auto |].
    destruct (structToValues record) as [values | e | p].
    + unfold client_Write. rewrite call_eq. eexists. split; [reflexivity |].
      right. now do 2 eexists.
    + exists []. rewrite app_nil_r. auto.
    + exists []. rewrite app_nil_r. auto.
  - intros rowIndex. unfold Delete.
    destruct (rowIndex <? 0); [exists []; rewrite app_nil_r; auto |].
    unfold client_DeleteRows. rewrite call_eq. eexists.
    split; [reflexivity |]. right. now eexists.
  - intros column operator value record.
    unfold UpdateWhere, bind, client_Read. rewrite call_eq.
    destruct (Read _ _ _) as [r s1]. cbn [fst snd].
    destruct r as [data | e | p]; try (now exists []).
    destruct (len data <? 2); [now exists [] |].
    destruct data as [| headers rows]; [now exists [] |].
    destruct (len _ =? 0); [now exists [] |].
    destruct (structToValues record) as [values | e | p];
      try (now exists []).
    destruct (UpdateWhere_writes_calls t
                (columnIndexToLetter (len values - 1)) values
                (UpdateWhere_indices rows headers
                   {| Column := column; Operator := operator;
                      Value := value |} 0)
                (after w (ReadCall (name t)) s1)) as (k & _ & Hc & _).
    eexists. split.
    + rewrite Hc. cbn [after calls]. rewrite <- app_assoc. reflexivity.
    + apply forallb_is_Write.
  - intros column operator value.
    unfold DeleteWhere, bind, client_Read. rewrite call_eq.
    destruct (Read _ _ _) as [r s1]. cbn [fst snd].
    destruct r as [data | e | p]; try (exists []; now auto).
    destruct (len data <? 2); [exists []; now auto |].
    destruct data as [| headers rows]; [exists []; now auto |].
    destruct (len _ =? 0); [exists []; now auto |].
    unfold client_DeleteRows. rewrite call_eq. cbn [snd after calls].
    eexists. split; [rewrite <- app_assoc; reflexivity |].
    right. now eexists.
Qed.

